(** * Costa plugin runtime: the subprocess endpoint (client) and the
      orchestrator-side [PluginRunnable], embedded from the TypeScript sources.

    The two processes exchange [PluginProto] frames over the child-process
    channel.  Each side is embedded as explicit state passing: a record for
    the process-wide variables and the observable effects (frames sent,
    lines logged, exit code), and one function per handler or method. *)

From stdpp Require Import base option list gmap strings pretty.
From Stdlib Require Import ZArith Ascii.

Set Warnings "-register-all".
Open Scope Z_scope.
Open Scope string_scope.

(** ** JavaScript values *)

(** The built-in objects of the host that a lookup on a plain object can
    reach: a native function, by its name, and [Object.prototype]. *)
Inductive native : Type :=
| NFunction (name : string)
| NObjectPrototype.

(** The values that travel in frame params and that plugins take and return.
    Numbers are the integers (no fractions, no NaN).  Natives never come
    off the wire: they are neither written nor read by JSON. *)
Inductive value : Type :=
| VUndefined
| VNull
| VBool (b : bool)
| VNum (n : Z)
| VStr (s : string)
| VArr (items : list value)
| VObj (props : list (string * value))
| VNative (m : native).

(** [if (v)]: JavaScript truthiness. *)
Definition truthy (v : value) : bool :=
  match v with
  | VUndefined | VNull => false
  | VBool b => b
  | VNum n => negb (Z.eqb n 0)
  | VStr s => negb (String.eqb s "")
  | VArr _ | VObj _ | VNative _ => true
  end.

Inductive Error : Type :=
| TypeError (msg : string)
| SyntaxError (msg : string)
| ModuleNotFound (name : string)
| FsError (path : string)
| Raised (e : value).

(** A JavaScript expression either yields a value or throws. *)
Inductive outcome (A : Type) : Type :=
| Return (a : A)
| Throw (e : Error).
Arguments Return {A} a.
Arguments Throw {A} e.

#[export] Instance outcome_ret : MRet outcome := @Return.
#[export] Instance outcome_bind : MBind outcome := fun A B f m =>
  match m with
  | Return a => f a
  | Throw e => Throw e
  end.

Fixpoint assoc (k : string) (props : list (string * value)) : option value :=
  match props with
  | [] => None
  | (k', v) :: rest => if String.eqb k k' then Some v else assoc k rest
  end.

(** [v.k] for the property names the sources read ([__flag__], [id], [name],
    [version], [pipcook], [target], [PYTHONPATH]), none of which is a member
    of [Object.prototype]: a TypeError on [null] and [undefined],
    [undefined] on primitives and arrays, the own property on objects, and
    on a native function its [name]. *)
Definition get (v : value) (k : string) : outcome value :=
  match v with
  | VUndefined => Throw (TypeError ("Cannot read property '" ++ k ++ "' of undefined"))
  | VNull => Throw (TypeError ("Cannot read property '" ++ k ++ "' of null"))
  | VObj props => Return (default VUndefined (assoc k props))
  | VNative (NFunction n) => Return (if String.eqb k "name" then VStr n else VUndefined)
  | _ => Return VUndefined
  end.

(** [String(v)], as used when a value is a property key; a number prints
    as its decimal digits. *)
Fixpoint ToString (v : value) : string :=
  match v with
  | VUndefined => "undefined"
  | VNull => "null"
  | VBool true => "true"
  | VBool false => "false"
  | VNum n => pretty n
  | VStr s => s
  | VArr items =>
      (fix join (l : list value) : string :=
         match l with
         | [] => ""
         | [x] => match x with VUndefined | VNull => "" | _ => ToString x end
         | x :: rest =>
             (match x with VUndefined | VNull => "" | _ => ToString x end)
               ++ "," ++ join rest
         end) items
  | VObj _ => "[object Object]"
  | VNative (NFunction n) => "function " ++ n ++ "() { [native code] }"
  | VNative NObjectPrototype => "[object Object]"
  end.

(** ** Wire protocol *)

Inductive PluginOperator : Type := START | WRITE | READ | COMPILE.

#[export] Instance PluginOperator_eq_dec : EqDecision PluginOperator.
Proof. solve_decision. Defined.

(** [params] is optional: the destroy request carries none. *)
Record PluginMessage : Type := {
  event : string;
  params : option (list value)
}.

Record PluginProto : Type := {
  op : PluginOperator;
  message : PluginMessage
}.

(** Modelled from the spec: [PluginProto.stringify] and [PluginProto.parse]
    live in [./proto], which is not among the sources.  The spec requires
    them to be symmetric ([decode (encode (op, msg)) = (op, msg)]), so the
    channel carries the frame itself. *)
Definition wire : Type := PluginProto.
Definition stringify (o : PluginOperator) (msg : PluginMessage) : wire :=
  {| op := o; message := msg |}.
Definition parse (w : wire) : PluginProto := w.

(** [params[i]] on the optional array. *)
Definition index (ps : option (list value)) (i : nat) : outcome value :=
  match ps with
  | None => Throw (TypeError "Cannot read property of undefined")
  | Some l => Return (default VUndefined (l !! i))
  end.

Definition FLAG : string := "__pipcook_plugin_runnable_result__".

(** The double quote, for the messages that quote a name. *)
Definition quote : string := String (ascii_of_nat 34) EmptyString.

(** ** The subprocess endpoint (client) *)

(** An installed plugin: an async function of the resolved arguments that
    resolves to a value or rejects. *)
Definition Plugin : Type := list value -> outcome value.

(** What [require(pkg.name)] evaluates to, as far as the handler looks at it:
    a function, a non-function whose [default] is a function, or anything
    else. *)
Inductive Export : Type :=
| ExFunction (fn : Plugin)
| ExDefault (fn : Plugin)
| ExOther.

(** The part of the Node process that is not this repository's code. *)
Class ClientHost : Type := {
  (** whether [require('@pipcook/boa')] finds the module *)
  boa_installed : bool;
  (** [require(name)]; [None] when it throws *)
  require : string -> option Export;
  (** the id returned by the [n]-th call of [uuid.v4()] *)
  uuid_v4 : nat -> string
}.

Module Client.

(** The module-level variables [clientId] and [previousResults] with the
    effects of the process: frames given to [process.send] (oldest first),
    errors printed by [console.error], the code of [process.exit], the
    values given to [boa.setenv], the plugin invocations made (package name
    and the arguments passed), and the errors nothing caught. *)
Record state : Type := {
  clientId : option string;
  previousResults : gmap string value;
  sent : list wire;
  stderr : list Error;
  exited : option Z;
  uuids : nat;
  boa_env : list value;
  invoked : list (value * list value);
  uncaught : list Error
}.

Definition initial : state :=
  {| clientId := None; previousResults := ∅; sent := []; stderr := [];
     exited := None; uuids := 0%nat; boa_env := []; invoked := [];
     uncaught := [] |}.

Definition set_clientId (x : option string) (c : state) : state :=
  {| clientId := x; previousResults := previousResults c; sent := sent c;
     stderr := stderr c; exited := exited c; uuids := uuids c;
     boa_env := boa_env c; invoked := invoked c; uncaught := uncaught c |}.

(** [previousResults[rid] = resp]; [rid] comes from [uuid.v4()], whose ids
    are hexadecimal digits and dashes. *)
Definition store (rid : string) (resp : value) (c : state) : state :=
  {| clientId := clientId c;
     previousResults := <[rid := resp]> (previousResults c); sent := sent c;
     stderr := stderr c; exited := exited c; uuids := uuids c;
     boa_env := boa_env c; invoked := invoked c; uncaught := uncaught c |}.

Definition process_send (w : wire) (c : state) : state :=
  {| clientId := clientId c; previousResults := previousResults c;
     sent := sent c ++ [w]; stderr := stderr c; exited := exited c;
     uuids := uuids c; boa_env := boa_env c; invoked := invoked c;
     uncaught := uncaught c |}.

Definition console_error (e : Error) (c : state) : state :=
  {| clientId := clientId c; previousResults := previousResults c;
     sent := sent c; stderr := stderr c ++ [e]; exited := exited c;
     uuids := uuids c; boa_env := boa_env c; invoked := invoked c;
     uncaught := uncaught c |}.

Definition process_exit (code : Z) (c : state) : state :=
  {| clientId := clientId c; previousResults := previousResults c;
     sent := sent c; stderr := stderr c; exited := Some code;
     uuids := uuids c; boa_env := boa_env c; invoked := invoked c;
     uncaught := uncaught c |}.

Definition draw_uuid (c : state) : state :=
  {| clientId := clientId c; previousResults := previousResults c;
     sent := sent c; stderr := stderr c; exited := exited c;
     uuids := S (uuids c); boa_env := boa_env c; invoked := invoked c;
     uncaught := uncaught c |}.

Definition setenv (v : value) (c : state) : state :=
  {| clientId := clientId c; previousResults := previousResults c;
     sent := sent c; stderr := stderr c; exited := exited c;
     uuids := uuids c; boa_env := boa_env c ++ [v]; invoked := invoked c;
     uncaught := uncaught c |}.

Definition record_call (pkg : value) (args : list value) (c : state) : state :=
  {| clientId := clientId c; previousResults := previousResults c;
     sent := sent c; stderr := stderr c; exited := exited c;
     uuids := uuids c; boa_env := boa_env c;
     invoked := invoked c ++ [(pkg, args)]; uncaught := uncaught c |}.

Definition escape (e : Error) (c : state) : state :=
  {| clientId := clientId c; previousResults := previousResults c;
     sent := sent c; stderr := stderr c; exited := exited c;
     uuids := uuids c; boa_env := boa_env c; invoked := invoked c;
     uncaught := uncaught c ++ [e] |}.

(** Every stored result is truthy. *)
Definition stored_truthy (c : state) : Prop :=
  forall k v, previousResults c !! k = Some v -> truthy v = true.

(** [recv(respOp, ...params)] *)
Definition recv (respOp : PluginOperator) (ps : list value) (c : state) : state :=
  process_send (stringify respOp {| event := "pong"; params := Some ps |}) c.

(** What a plain object inherits: the members of [Object.prototype].  The
    [constructor] is the function [Object], and [__proto__] reads the
    prototype itself. *)
Definition inherited (k : string) : option native :=
  if String.eqb k "constructor" then Some (NFunction "Object")
  else if String.eqb k "__proto__" then Some NObjectPrototype
  else if bool_decide (k ∈ ["toString"; "toLocaleString"; "valueOf";
                            "hasOwnProperty"; "isPrototypeOf";
                            "propertyIsEnumerable"; "__defineGetter__";
                            "__defineSetter__"; "__lookupGetter__";
                            "__lookupSetter__"])
  then Some (NFunction k)
  else None.

(** [previousResults[key]]: the table is a plain object, so a key that is
    not its own is looked up in [Object.prototype]. *)
Definition lookup_result (t : gmap string value) (key : value) : value :=
  match t !! ToString key with
  | Some v => v
  | None =>
      match inherited (ToString key) with
      | Some m => VNative m
      | None => VUndefined
      end
  end.

(** [deserializeArg(arg)] *)
Definition deserializeArg (t : gmap string value) (arg : value) : outcome value :=
  flag ← get arg "__flag__";
  match flag with
  | VStr f =>
      if String.eqb f FLAG then
        id ← get arg "id";
        if truthy (lookup_result t id) then Return (lookup_result t id)
        else Return arg
      else Return arg
  | _ => Return arg
  end.

(** [pluginArgs.map(deserializeArg)]: left to right, the first throw ends it. *)
Fixpoint map_deserializeArg (t : gmap string value) (args : list value)
  : outcome (list value) :=
  match args with
  | [] => Return []
  | a :: rest =>
      a' ← deserializeArg t a;
      rest' ← map_deserializeArg t rest;
      Return (a' :: rest')
  end.

(** [pkg.pipcook?.target.PYTHONPATH] *)
Definition PYTHONPATH (pkg : value) : outcome value :=
  pipcook ← get pkg "pipcook";
  match pipcook with
  | VUndefined | VNull => Return VUndefined
  | _ => target ← get pipcook "target"; get target "PYTHONPATH"
  end.

Section Handlers.
Context `{ClientHost}.

(** [require(pkg.name)] followed by the choice of the default export. *)
Definition load (pkg : value) : outcome (option Plugin) :=
  name ← get pkg "name";
  match name with
  | VStr n =>
      match require n with
      | Some (ExFunction fn) => Return (Some fn)
      | Some (ExDefault fn) => Return (Some fn)
      | Some ExOther => Return None
      | None => Throw (ModuleNotFound n)
      end
  | _ => Throw (TypeError "The id argument must be of type string")
  end.

(** The body of the [try] block up to the call: [require('@pipcook/boa')],
    the optional [boa.setenv], [require(pkg.name)] and the resolution of the
    arguments.  It yields the function about to be called and the arguments
    it is called with. *)
Definition prepare (pkg : value) (pluginArgs : list value) (c : state)
  : state * outcome (Plugin * list value) :=
  if boa_installed then
    match PYTHONPATH pkg with
    | Throw e => (c, Throw e)
    | Return pp =>
        let c1 := if truthy pp then setenv pp c else c in
        match load pkg with
        | Throw e => (c1, Throw e)
        | Return fn =>
            match map_deserializeArg (previousResults c1) pluginArgs with
            | Throw e => (c1, Throw e)
            | Return args =>
                match fn with
                | None => (c1, Throw (TypeError "fn is not a function"))
                | Some f => (c1, Return (f, args))
                end
            end
        end
    end
  else (c, Throw (ModuleNotFound "@pipcook/boa")).

(** [await fn(...pluginArgs.map(deserializeArg))] *)
Definition invoke (pkg : value) (pluginArgs : list value) (c : state)
  : state * outcome value :=
  match prepare pkg pluginArgs c with
  | (c1, Return (f, args)) => (record_call pkg args c1, f args)
  | (c1, Throw e) => (c1, Throw e)
  end.

(** [handlers[PluginOperator.START]]; a throw in this synchronous listener
    ends the process. *)
Definition handle_START (proto : PluginProto) (c : state) : state :=
  if String.eqb (event (message proto)) "handshake" then
    match index (params (message proto)) 0 with
    | Throw e => process_exit 1 (escape e c)
    | Return (VStr id) => recv START [VStr id] (set_clientId (Some id) c)
    | Return _ => c
    end
  else c.

(** [handlers[PluginOperator.WRITE]].  The handler is async; it is taken as
    a whole, the plugin settling before the next frame is handled.  What is
    thrown before the [try] rejects the handler's promise, which nothing
    catches. *)
Definition handle_WRITE (proto : PluginProto) (c : state) : state :=
  let ev := event (message proto) in
  let ps := params (message proto) in
  if String.eqb ev "start" then
    match (pkg ← index ps 0; _ ← get pkg "name"; Return pkg) with
    | Throw e => escape e c
    | Return pkg =>
        let pluginArgs := tail (default [] ps) in
        match invoke pkg pluginArgs c with
        | (c1, Return resp) =>
            if truthy resp then
              let rid := uuid_v4 (uuids c1) in
              recv WRITE [VStr rid] (store rid resp (draw_uuid c1))
            else recv WRITE [] c1
        | (c1, Throw err) => console_error err c1
        end
    end
  else if String.eqb ev "destroy" then process_exit 0 c
  else c.

(** [handlers[PluginOperator.READ]]: the body is a TODO comment. *)
Definition handle_READ (proto : PluginProto) (c : state) : state := c.

(** [handlers[PluginOperator.COMPILE]]: the body is a TODO comment. *)
Definition handle_COMPILE (proto : PluginProto) (c : state) : state := c.

Definition handlers (o : PluginOperator) : PluginProto -> state -> state :=
  match o with
  | START => handle_START
  | WRITE => handle_WRITE
  | READ => handle_READ
  | COMPILE => handle_COMPILE
  end.

(** [process.on('message', ...)]; an exited process handles nothing. *)
Definition on_message (c : state) (msg : wire) : state :=
  match exited c with
  | Some _ => c
  | None => let proto := parse msg in handlers (op proto) proto c
  end.

Definition run (c : state) (msgs : list wire) : state :=
  foldl on_message c msgs.

(** The states of a process that started with empty variables and handled
    some frames. *)
Definition reachable (c : state) : Prop := exists msgs, c = run initial msgs.

(** The keys of the table are the ids drawn so far. *)
Definition keys_are_ids (c : state) : Prop :=
  forall k, is_Some (previousResults c !! k) <->
            exists i, (i < uuids c)%nat /\ k = uuid_v4 i.

End Handlers.

(** The Result Reference shape, in the words of the specification: the
    kind tag is the flag, and the id is the key into the Result Table. *)
Definition reference_key (arg : value) : option string :=
  match arg with
  | VObj props =>
      match assoc "__flag__" props with
      | Some (VStr f) =>
          if String.eqb f FLAG
          then Some (ToString (default VUndefined (assoc "id" props)))
          else None
      | _ => None
      end
  | _ => None
  end.


(** Argument resolution, in the words of the specification: a reference
    present in the table stands for the stored value; a reference absent
    from it, or anything that is not a reference, is the literal value. *)
Definition resolved_argument (t : gmap string value) (arg : value) : value :=
  match reference_key arg with
  | Some k => default arg (t !! k)
  | None => arg
  end.

End Client.

(** ** The orchestrator side: [PluginRunnable] *)

(** [JSON.parse], a built-in of the host. *)
Class ParentHost : Type := {
  JSON_parse : value -> outcome value
}.

Module Runnable.

(** *** Paths and the filesystem (node's [path], [fs-extra]) *)

(** [path.join] on two normalised, non-empty segments. *)
Definition path_join (a b : string) : string := a ++ "/" ++ b.

Fixpoint dir_of (s : string) : option string :=
  match s with
  | EmptyString => None
  | String a rest =>
      match dir_of rest with
      | Some d => Some (String a d)
      | None => if Ascii.eqb a "/"%char then Some "" else None
      end
  end.

(** [path.parse(name).dir] for a package name: what precedes the last
    slash, empty when there is none. *)
Definition path_dir (name : string) : string := default "" (dir_of name).

(** The filesystem is the set of the paths that exist. *)
Definition ensureDir (p : string) (fs : gset string) : gset string :=
  fs ∪ {[p]}.

(** [ensureSymlink]: nothing to do when the destination exists, an error
    when the source does not. *)
Definition ensureSymlink (src dst : string) (fs : gset string)
  : outcome (gset string) :=
  if decide (dst ∈ fs) then Return fs
  else if decide (src ∈ fs) then Return (fs ∪ {[dst]})
  else Throw (FsError src).

Definition beneath (p q : string) : bool :=
  String.eqb q p || String.prefix (p ++ "/") q.

(** [remove]: the path and everything beneath it. *)
Definition remove (p : string) (fs : gset string) : gset string :=
  filter (fun q => beneath p q = false) fs.

(** *** State *)

Inductive State : Type := init | idle | busy.

#[export] Instance State_eq_dec : EqDecision State.
Proof. solve_decision. Defined.

Record Options : Type := { installDir : string; componentDir : string }.
Record CostaRuntime : Type := { options : Options }.

(** The handle of the forked process: what [handle.send] was given, oldest
    first. *)
Record ChildProcess : Type := { outbox : list wire }.

(** [class RunnableResponse]; the field initialiser of [__flag__] runs before
    the constructor body. *)
Record RunnableResponse : Type := { resp_id : value }.

Definition RunnableResponse_value (resp : RunnableResponse) : value :=
  VObj [("__flag__", VStr FLAG); ("id", resp_id resp)].

(** The public async methods; one of them is suspended whenever a promise
    is pending. *)
Inductive Call : Type := Bootstrap | Start | ValueOf | Destroy.

#[export] Instance Call_eq_dec : EqDecision Call.
Proof. solve_decision. Defined.

(** The methods that call [sendAndWait]. *)
Inductive Caller : Type := OfBootstrap | OfStart | OfValueOf.

#[export] Instance Caller_eq_dec : EqDecision Caller.
Proof. solve_decision. Defined.

Definition call_of (k : Caller) : Call :=
  match k with
  | OfBootstrap => Bootstrap
  | OfStart => Start
  | OfValueOf => ValueOf
  end.

(** A [waitOn(op)] loop suspended in [await this.read()], and the method
    whose [sendAndWait] called it. *)
Record Waiter : Type := { wait_op : PluginOperator; caller : Caller }.

(** The fields of the class, then what the async methods need: [waiting]
    maps each pending promise made by [read()] to the loop suspended on it,
    [destroying] holds the pending promises made by [destroy()], [promises]
    counts the promises made so far, and [fs] is the host filesystem.
    [onread] and [ondestroyed] hold the promise whose [resolve] they are. *)
Record PluginRunnable : Type := {
  id : string;
  rt : CostaRuntime;
  handle : option ChildProcess;
  onread : option nat;
  ondestroyed : option nat;
  workingDir : string;
  state : State;
  waiting : gmap nat Waiter;
  destroying : gset nat;
  promises : nat;
  fs : gset string
}.

(** What a method call resolves to. *)
Inductive Answer : Type :=
| ABootstrap
| AStart (resp : option RunnableResponse)
| AValue (v : value)
| ADestroy.

(** A method's promise settling: resolved with an answer or rejected. *)
Record Settled : Type := { call : Call; result : outcome Answer }.

(** How a method call leaves the synchronous part of its body. *)
Inductive Started : Type := Failed (e : Error) | Suspended.

Definition set_handle (h : option ChildProcess) (r : PluginRunnable) : PluginRunnable :=
  {| id := id r; rt := rt r; handle := h; onread := onread r;
     ondestroyed := ondestroyed r; workingDir := workingDir r;
     state := state r; waiting := waiting r; destroying := destroying r;
     promises := promises r; fs := fs r |}.

Definition set_state (s : State) (r : PluginRunnable) : PluginRunnable :=
  {| id := id r; rt := rt r; handle := handle r; onread := onread r;
     ondestroyed := ondestroyed r; workingDir := workingDir r;
     state := s; waiting := waiting r; destroying := destroying r;
     promises := promises r; fs := fs r |}.

Definition set_fs (f : gset string) (r : PluginRunnable) : PluginRunnable :=
  {| id := id r; rt := rt r; handle := handle r; onread := onread r;
     ondestroyed := ondestroyed r; workingDir := workingDir r;
     state := state r; waiting := waiting r; destroying := destroying r;
     promises := promises r; fs := f |}.

Definition set_waiting (w : gmap nat Waiter) (r : PluginRunnable) : PluginRunnable :=
  {| id := id r; rt := rt r; handle := handle r; onread := onread r;
     ondestroyed := ondestroyed r; workingDir := workingDir r;
     state := state r; waiting := w; destroying := destroying r;
     promises := promises r; fs := fs r |}.

Definition set_destroying (d : gset nat) (r : PluginRunnable) : PluginRunnable :=
  {| id := id r; rt := rt r; handle := handle r; onread := onread r;
     ondestroyed := ondestroyed r; workingDir := workingDir r;
     state := state r; waiting := waiting r; destroying := d;
     promises := promises r; fs := fs r |}.

(** The errors the methods throw. *)
Definition BusyError (r : PluginRunnable) : Error :=
  TypeError ("the runnable " ++ quote ++ id r ++ quote ++ " is busy or not ready now").

Definition ProtocolError : Error :=
  TypeError ("invalid response because the event is not " ++ quote ++ "pong" ++ quote ++ ".").

(** [constructor(rt)], with the id that [uuid.v4()] gave. *)
Definition new (rt0 : CostaRuntime) (id0 : string) (fs0 : gset string) : PluginRunnable :=
  {| id := id0; rt := rt0; handle := None; onread := None;
     ondestroyed := None;
     workingDir := path_join (componentDir (options rt0)) id0;
     state := init; waiting := ∅; destroying := ∅; promises := 0%nat;
     fs := fs0 |}.

(** [send(op, msg)]: [this.handle.send(data)]; a TypeError while the handle
    is null. *)
Definition send (o : PluginOperator) (msg : PluginMessage) (r : PluginRunnable)
  : outcome PluginRunnable :=
  match handle r with
  | None => Throw (TypeError "Cannot read property 'send' of null")
  | Some h => Return (set_handle (Some {| outbox := outbox h ++ [stringify o msg] |}) r)
  end.

(** [read()]: a new promise whose [resolve] replaces [this.onread]. *)
Definition read (r : PluginRunnable) : nat * PluginRunnable :=
  (promises r,
   {| id := id r; rt := rt r; handle := handle r; onread := Some (promises r);
      ondestroyed := ondestroyed r; workingDir := workingDir r;
      state := state r; waiting := waiting r; destroying := destroying r;
      promises := S (promises r); fs := fs r |}).

(** [waitOn(op)] up to its [await this.read()]. *)
Definition waitOn (o : PluginOperator) (k : Caller) (r : PluginRunnable) : PluginRunnable :=
  let (p, r1) := read r in
  set_waiting (<[p := {| wait_op := o; caller := k |}]> (waiting r1)) r1.

(** [sendAndWait(op, msg)] up to the suspension inside [waitOn]. *)
Definition sendAndWait (o : PluginOperator) (msg : PluginMessage) (k : Caller)
  (r : PluginRunnable) : outcome PluginRunnable :=
  r1 ← send o msg r;
  Return (waitOn o k r1).

(** [sendAndWait] after [waitOn] has returned [resp]. *)
Definition sendAndWait_return (resp : PluginMessage) : outcome PluginMessage :=
  if String.eqb (event resp) "pong" then Return resp
  else Throw ProtocolError.

Section Methods.
Context `{ParentHost}.

(** The rest of [bootstrap], [start] and [valueOf] once their
    [sendAndWait] has returned or thrown.  [handshake()] returns [true]
    whenever it returns, so the guard of [bootstrap] after it never
    throws. *)
Definition continue (k : Caller) (res : outcome PluginMessage) (r : PluginRunnable)
  : PluginRunnable * Settled :=
  match res with
  | Throw e => (r, {| call := call_of k; result := Throw e |})
  | Return msg =>
      match k with
      | OfBootstrap =>
          (set_state idle r, {| call := Bootstrap; result := Return ABootstrap |})
      | OfStart =>
          (set_state idle r,
           {| call := Start;
              result := i ← index (params msg) 0;
                        Return (AStart (if truthy i
                                        then Some {| resp_id := i |}
                                        else None)) |})
      | OfValueOf =>
          (r, {| call := ValueOf;
                 result :=
                   match params msg with
                   | Some [p] => v ← JSON_parse p; Return (AValue v)
                   | _ => Throw (TypeError "invalid response because the params is invalid.")
                   end |})
      end
  end.

(** The [waitOn] loop resumed with the frame its [read()] resolved to. *)
Definition resume (p : nat) (w : Waiter) (data : PluginProto) (r : PluginRunnable)
  : PluginRunnable * option Settled :=
  let r0 := set_waiting (delete p (waiting r)) r in
  if decide (op data = wait_op w) then
    let (r1, s) := continue (caller w) (sendAndWait_return (message data)) r0 in
    (r1, Some s)
  else (waitOn (wait_op w) (caller w) r0, None).

(** [handleMessage(msg)]: calling the [resolve] of a settled promise does
    nothing.  Frames are taken to arrive in separate turns of the event
    loop: the loop suspended on the resolved promise runs on, up to its next
    suspension or the end of its method, before the next frame is
    handled. *)
Definition handleMessage (r : PluginRunnable) (msg : wire)
  : PluginRunnable * option Settled :=
  let proto := parse msg in
  match onread r with
  | Some p =>
      match waiting r !! p with
      | Some w => resume p w proto r
      | None => (r, None)
      end
  | None => (r, None)
  end.

(** [bootstrap(arg)] up to the suspension of the handshake; [fork] gives a
    fresh handle.  The environment passed to the child plays no part and is
    left out. *)
Definition bootstrap (r : PluginRunnable) : PluginRunnable * Started :=
  let compPath := workingDir r in
  let r1 := set_fs (ensureDir (compPath ++ "/node_modules")
                      (ensureDir compPath (fs r))) r in
  let r2 := set_handle (Some {| outbox := [] |}) r1 in
  match sendAndWait START
          {| event := "handshake"; params := Some [VStr (id r2)] |}
          OfBootstrap r2 with
  | Return r3 => (r3, Suspended)
  | Throw e => (r2, Failed e)
  end.

(** [valueOf(resp)] up to the suspension. *)
Definition valueOf (resp : RunnableResponse) (r : PluginRunnable)
  : PluginRunnable * Started :=
  match sendAndWait READ
          {| event := "deserialize response";
             params := Some [RunnableResponse_value resp] |}
          OfValueOf r with
  | Return r1 => (r1, Suspended)
  | Throw e => (r, Failed e)
  end.

(** [path.parse(pkg.name)] needs a string. *)
Definition package_name (pkg : value) : outcome string :=
  name ← get pkg "name";
  match name with
  | VStr n => Return n
  | _ => Throw (TypeError "The path argument must be of type string")
  end.

(** [start(pkg, ...args)] up to the suspension inside [sendAndWait]; the
    awaits on [fs-extra] before it are not interleaved with other calls. *)
Definition start (pkg : value) (args : list value) (r : PluginRunnable)
  : PluginRunnable * Started :=
  match state r with
  | idle =>
      let r1 := set_state busy r in
      let compPath := path_join (componentDir (options (rt r1))) (id r1) in
      match package_name pkg with
      | Throw e => (r1, Failed e)
      | Return name =>
          let fs1 := ensureDir (compPath ++ "/node_modules")
                       (ensureDir compPath (fs r1)) in
          let fs2 := if String.eqb (path_dir name) "" then fs1
                     else ensureDir (compPath ++ "/node_modules/" ++ path_dir name) fs1 in
          match ensureSymlink
                  (path_join (path_join (installDir (options (rt r1))) "node_modules") name)
                  (compPath ++ "/node_modules/" ++ name) fs2 with
          | Throw e => (set_fs fs2 r1, Failed e)
          | Return fs3 =>
              match sendAndWait WRITE
                      {| event := "start"; params := Some (pkg :: args) |}
                      OfStart (set_fs fs3 r1) with
              | Return r2 => (r2, Suspended)
              | Throw e => (set_fs fs3 r1, Failed e)
              end
          end
      end
  | _ => (r, Failed (BusyError r))
  end.

(** [destroy()]: the frame is sent, nothing is read, and the returned
    promise is the one whose [resolve] becomes [this.ondestroyed]. *)
Definition destroy (r : PluginRunnable) : PluginRunnable * Started :=
  match send WRITE {| event := "destroy"; params := None |} r with
  | Throw e => (r, Failed e)
  | Return r1 =>
      ({| id := id r1; rt := rt r1; handle := handle r1; onread := onread r1;
          ondestroyed := Some (promises r1); workingDir := workingDir r1;
          state := state r1; waiting := waiting r1;
          destroying := destroying r1 ∪ {[promises r1]};
          promises := S (promises r1); fs := fs r1 |}, Suspended)
  end.

(** [afterDestroy()], the listener of the handle's [disconnect] event. *)
Definition afterDestroy (r : PluginRunnable) : PluginRunnable * option Settled :=
  let r1 := set_fs (remove (path_join (componentDir (options (rt r))) (id r)) (fs r)) r in
  match ondestroyed r1 with
  | Some p =>
      if decide (p ∈ destroying r1) then
        (set_destroying (destroying r1 ∖ {[p]}) r1,
         Some {| call := Destroy; result := Return ADestroy |})
      else (r1, None)
  | None => (r1, None)
  end.

(** Inbound frames handled one after the other. *)
Fixpoint deliver (r : PluginRunnable) (msgs : list wire)
  : PluginRunnable * list Settled :=
  match msgs with
  | [] => (r, [])
  | m :: rest =>
      let (r1, s) := handleMessage r m in
      let (r2, ss) := deliver r1 rest in
      (r2, (option_list s ++ ss)%list)
  end.

(** What can happen to a Runnable after its bootstrap: a call of a public
    method, an inbound frame, the disconnect of the handle. *)
Inductive Event : Type :=
| EStart (pkg : value) (args : list value)
| EValueOf (resp : RunnableResponse)
| EDestroy
| EMessage (msg : wire)
| EDisconnect.

Definition step (r : PluginRunnable) (e : Event) : PluginRunnable :=
  match e with
  | EStart pkg args => (start pkg args r).1
  | EValueOf resp => (valueOf resp r).1
  | EDestroy => (destroy r).1
  | EMessage msg => (handleMessage r msg).1
  | EDisconnect => (afterDestroy r).1
  end.

(** The states of a Runnable that is constructed and bootstrapped once. *)
Inductive reachable : PluginRunnable -> Prop :=
| reachable_new rt0 id0 fs0 : reachable (new rt0 id0 fs0)
| reachable_bootstrap r : reachable r -> handle r = None -> reachable (bootstrap r).1
| reachable_step r e : reachable r -> reachable (step r e).

End Methods.

(** The requests in flight: sent by [sendAndWait], their call not settled. *)
Definition in_flight (r : PluginRunnable) : gmap nat Waiter := waiting r.

(** The frames given to the transport so far. *)
Definition sent (r : PluginRunnable) : list wire :=
  match handle r with
  | Some h => outbox h
  | None => []
  end.

(** The read that [handleMessage] would resolve: the promise in [onread], if
    it is still pending. *)
Definition pending_read (r : PluginRunnable) : option nat :=
  p ← onread r; _ ← waiting r !! p; Some p.

(** The registered read belongs to a [waitOn(o)] loop called for [k]. *)
Definition waits_for (o : PluginOperator) (k : Caller) (r : PluginRunnable) : Prop :=
  exists p, onread r = Some p /\
            waiting r !! p = Some {| wait_op := o; caller := k |}.

(** Two states that differ at most in the promises made by [read()]. *)
Definition same_but_reads (r r' : PluginRunnable) : Prop :=
  id r' = id r /\ rt r' = rt r /\ handle r' = handle r /\
  ondestroyed r' = ondestroyed r /\ workingDir r' = workingDir r /\
  state r' = state r /\ destroying r' = destroying r /\ fs r' = fs r.

(** No suspended request was made by method [k]. *)
Definition no_waiter (k : Caller) (r : PluginRunnable) : Prop :=
  forall p w, waiting r !! p = Some w -> caller w <> k.

(** At most one suspended request was made by method [k]. *)
Definition one_waiter (k : Caller) (r : PluginRunnable) : Prop :=
  forall p q wp wq,
    in_flight r !! p = Some wp -> in_flight r !! q = Some wq ->
    caller wp = k -> caller wq = k -> p = q.

(** Busy with no [start()] and no handshake in flight: no pending call is
    left that would set the state back to idle. *)
Definition wedged (r : PluginRunnable) : Prop :=
  state r = busy /\ no_waiter OfStart r /\ no_waiter OfBootstrap r.

(** What holds of every state of a Runnable bootstrapped once. *)
Record Inv (r : PluginRunnable) : Prop := {
  inv_fresh : forall p w, waiting r !! p = Some w -> (p < promises r)%nat;
  inv_start : forall p w,
    waiting r !! p = Some w -> caller w = OfStart -> state r = busy;
  inv_boot : forall p w,
    waiting r !! p = Some w -> caller w = OfBootstrap -> state r = init;
  inv_one_start : one_waiter OfStart r;
  inv_one_boot : one_waiter OfBootstrap r;
  inv_unspawned : handle r = None -> waiting r = ∅ /\ state r = init;
  inv_workingDir :
    workingDir r = path_join (componentDir (options (rt r))) (id r)
}.

End Runnable.

(** ** The two processes together *)

Module System.
Import Runnable.

Record t : Type := { parent : PluginRunnable; child : Client.state }.

Section Rounds.
Context `{ClientHost} `{ParentHost}.

(** The child handles [requests]; the parent then handles what the child
    sent in reply, and the disconnect if the child exited. *)
Definition serve (s : t) (requests : list wire) : t * list Settled :=
  let c1 := Client.run (child s) requests in
  let replies := drop (length (Client.sent (child s))) (Client.sent c1) in
  let (p1, ss) := deliver (parent s) replies in
  match Client.exited (child s), Client.exited c1 with
  | None, Some _ =>
      let (p2, d) := afterDestroy p1 in
      ({| parent := p2; child := c1 |}, (ss ++ option_list d)%list)
  | _, _ => ({| parent := p1; child := c1 |}, ss)
  end.

(** A method call on the parent followed by the service of the frames it
    sent. *)
Definition round (method : PluginRunnable -> PluginRunnable * Started) (s : t)
  : t * Started * list Settled :=
  let (p1, st) := method (parent s) in
  let requests := drop (length (sent (parent s))) (sent p1) in
  let (s1, ss) := serve {| parent := p1; child := child s |} requests in
  (s1, st, ss).

(** [createRunnable()]: construct, fork a fresh child, handshake. *)
Definition spawn (rt0 : CostaRuntime) (id0 : string) (fs0 : gset string)
  : t * Started * list Settled :=
  let (p1, st) := bootstrap (new rt0 id0 fs0) in
  let (s1, ss) := serve {| parent := p1; child := Client.initial |} (sent p1) in
  (s1, st, ss).

End Rounds.
End System.

(** ** A host to run the definitions on *)

Module Demo.
Import Runnable.

Definition pluginA : Plugin := fun _ => Return (VObj [("y", VNum 2)]).
Definition pluginB : Plugin := fun _ => Return VUndefined.
Definition pluginC : Plugin := fun _ => Throw (Raised (VStr "boom")).
Definition pluginEcho : Plugin := fun args => Return (VArr args).

#[export] Instance client_host : ClientHost := {|
  boa_installed := true;
  require name :=
    if String.eqb name "plugin-a" then Some (ExFunction pluginA)
    else if String.eqb name "plugin-b" then Some (ExFunction pluginB)
    else if String.eqb name "plugin-c" then Some (ExFunction pluginC)
    else if String.eqb name "plugin-echo" then Some (ExDefault pluginEcho)
    else None;
  uuid_v4 n := "uuid-" ++ pretty n
|}.

(** Enough of [JSON.parse] for the literals. *)
#[export] Instance parent_host : ParentHost := {|
  JSON_parse v :=
    match v with
    | VStr s =>
        if String.eqb s "null" then Return VNull
        else if String.eqb s "true" then Return (VBool true)
        else if String.eqb s "false" then Return (VBool false)
        else Throw (SyntaxError "Unexpected token")
    | _ => Throw (SyntaxError "Unexpected token")
    end
|}.

Definition package (name : string) : value :=
  VObj [("name", VStr name); ("version", VStr "1.0.0")].

Definition rt0 : CostaRuntime :=
  {| options := {| installDir := "/install"; componentDir := "/components" |} |}.

(** The install directory holds the four plugins. *)
Definition disk : gset string :=
  {[ "/install/node_modules/plugin-a"; "/install/node_modules/plugin-b";
     "/install/node_modules/plugin-c"; "/install/node_modules/plugin-echo" ]}.

Definition start_frame (name : string) (args : list value) : wire :=
  stringify WRITE {| event := "start"; params := Some (package name :: args) |}.

Definition pong (o : PluginOperator) (ps : list value) : wire :=
  stringify o {| event := "pong"; params := Some ps |}.

(** A Runnable step by step: bootstrapped, handshake answered, a start in
    flight, then a valueOf issued before the start is answered. *)
Definition fresh : PluginRunnable := (bootstrap (new rt0 "r-1" disk)).1.
Definition ready : PluginRunnable := step fresh (EMessage (pong START [VStr "r-1"])).
Definition started : PluginRunnable := step ready (EStart (package "plugin-a") []).
Definition overlapping : PluginRunnable :=
  step started (EValueOf {| resp_id := VStr "uuid-0" |}).

(** The valueOf answered: the start is still suspended, on a promise that
    [onread] no longer holds. *)
Definition orphaned : PluginRunnable :=
  step overlapping (EMessage (pong READ [VStr "null"])).

(** A bootstrapped pair: the handshake has been exchanged. *)
Definition booted : System.t := (System.spawn rt0 "r-1" disk).1.1.

(** The pair after [start(pluginA, {x: 1})] has been answered. *)
Definition answered : System.t :=
  (System.round (start (package "plugin-a") [VObj [("x", VNum 1)]]) booted).1.1.

Definition reference (rid : string) : RunnableResponse := {| resp_id := VStr rid |}.

Definition read_frame (rid : string) : wire :=
  stringify READ {| event := "deserialize response";
                    params := Some [RunnableResponse_value (reference rid)] |}.

(** A bootstrapped Runnable with only a valueOf in flight. *)
Definition reading : PluginRunnable := step ready (EValueOf (reference "uuid-0")).

(** A response that is not a pong. *)
Definition failure (o : PluginOperator) : wire :=
  stringify o {| event := "error"; params := None |}.

End Demo.

(** * Proof steps *)

(** A waiter found after a [delete] was there before it. *)
Ltac undelete H := apply lookup_delete_Some in H as [_ H].

(** A waiter found after an insert is the inserted one or an older one. *)
Ltac uninsert H := apply lookup_insert_Some in H as [[<- <-]|[_ H]].

(** * Properties of the subprocess endpoint *)

Section ClientFacts.
Context `{ClientHost}.
Import Client.

Lemma prepare_frame pkg pluginArgs c c1 o :
  prepare pkg pluginArgs c = (c1, o) ->
  clientId c1 = clientId c /\ previousResults c1 = previousResults c /\
  sent c1 = sent c /\ stderr c1 = stderr c /\ exited c1 = exited c /\
  uuids c1 = uuids c /\ invoked c1 = invoked c /\ uncaught c1 = uncaught c.
Proof.
  unfold prepare. intros Hp.
  destruct boa_installed; [| by inversion Hp].
  destruct (PYTHONPATH pkg) as [pp|e]; [| by inversion Hp].
  assert (Hc : forall c2, c2 = (if truthy pp then setenv pp c else c) ->
    clientId c2 = clientId c /\ previousResults c2 = previousResults c /\
    sent c2 = sent c /\ stderr c2 = stderr c /\ exited c2 = exited c /\
    uuids c2 = uuids c /\ invoked c2 = invoked c /\ uncaught c2 = uncaught c).
  { intros c2 ->. by destruct (truthy pp). }
  destruct (load pkg) as [fn|e]; [| inversion Hp; subst; by apply Hc].
  destruct (map_deserializeArg _ pluginArgs) as [args|e];
    [| inversion Hp; subst; by apply Hc].
  destruct fn; inversion Hp; subst; by apply Hc.
Qed.

Lemma prepare_named pkg pluginArgs c c1 fa :
  prepare pkg pluginArgs c = (c1, Return fa) ->
  exists n, get pkg "name" = Return n.
Proof.
  unfold prepare. intros Hp.
  destruct boa_installed; [| by inversion Hp].
  destruct (PYTHONPATH pkg); [| by inversion Hp].
  unfold load in Hp. destruct (get pkg "name") as [n|e]; [by exists n |].
  by inversion Hp.
Qed.

Lemma on_message_READ c proto :
  op proto = READ -> on_message c proto = c.
Proof.
  intros Hop. unfold on_message, parse. destruct (exited c); [done |].
  by rewrite Hop.
Qed.

Lemma on_message_COMPILE c proto :
  op proto = COMPILE -> on_message c proto = c.
Proof.
  intros Hop. unfold on_message, parse. destruct (exited c); [done |].
  by rewrite Hop.
Qed.

(** What the WRITE/start handler does once the plugin has been called. *)
Lemma on_message_start c proto pkg rest c1 f args :
  exited c = None ->
  op proto = WRITE ->
  event (message proto) = "start" ->
  params (message proto) = Some (pkg :: rest) ->
  prepare pkg rest c = (c1, Return (f, args)) ->
  on_message c proto =
    match f args with
    | Return resp =>
        if truthy resp then
          recv WRITE [VStr (uuid_v4 (uuids c1))]
            (store (uuid_v4 (uuids c1)) resp (draw_uuid (record_call pkg args c1)))
        else recv WRITE [] (record_call pkg args c1)
    | Throw err => console_error err (record_call pkg args c1)
    end.
Proof.
  intros Hex Hop Hev Hps Hp.
  destruct (prepare_named _ _ _ _ _ Hp) as [n Hn].
  unfold on_message, parse. rewrite Hex, Hop. simpl.
  unfold handle_WRITE. rewrite Hev, Hps. simpl.
  rewrite Hn. simpl. unfold invoke. rewrite Hp.
  by destruct (f args).
Qed.

Lemma on_message_stored_truthy c msg :
  stored_truthy c -> stored_truthy (on_message c msg).
Proof.
  intros Hc. unfold on_message, parse. destruct (exited c); [done |].
  destruct (op msg); simpl; try done.
  - unfold handle_START. destruct (String.eqb _ _); [| done].
    destruct (index _ _) as [[]|]; done.
  - unfold handle_WRITE. destruct (String.eqb _ "start").
    + destruct (_ ≫= _) as [pkg|e]; [| done].
      unfold invoke.
      destruct (prepare pkg _ c) as [c1 [[f args]|e]] eqn:Hp;
        destruct (prepare_frame _ _ _ _ _ Hp) as (_ & Ht & _).
      * destruct (f args) as [resp|err]; simpl.
        -- destruct (truthy resp) eqn:Hr; intros k v; simpl; rewrite ?Ht.
           ++ intros Hk. apply lookup_insert_Some in Hk as [[_ <-]|[_ Hk]]; eauto.
           ++ apply Hc.
        -- intros k v. simpl. rewrite Ht. apply Hc.
      * intros k v. simpl. rewrite Ht. apply Hc.
    + by destruct (String.eqb _ "destroy").
Qed.

Lemma reachable_stored_truthy c : reachable c -> stored_truthy c.
Proof.
  intros [msgs ->]. unfold run.
  assert (Hi : stored_truthy initial) by (intros k v Hk; by simpl in Hk).
  revert Hi. generalize initial. induction msgs as [|m msgs IH]; intros c Hc.
  - done.
  - simpl. apply IH. by apply on_message_stored_truthy.
Qed.



End ClientFacts.

(** * Properties of the Runnable *)

Section RunnableFacts.
Context `{ParentHost}.
Import Runnable.

Lemma Inv_new rt0 id0 fs0 : Inv (new rt0 id0 fs0).
Proof.
  split; simpl; try done.
Qed.

Lemma Inv_set_fs f r : Inv r -> Inv (set_fs f r).
Proof. intros [? ? ? ? ? ? ?]. by split. Qed.

Lemma Inv_set_handle h r : Inv r -> Inv (set_handle (Some h) r).
Proof. intros [? ? ? ? ? ? ?]. by split. Qed.

Lemma Inv_set_destroying d r : Inv r -> Inv (set_destroying d r).
Proof. intros [? ? ? ? ? ? ?]. by split. Qed.

Lemma Inv_send o msg r r1 : send o msg r = Return r1 -> Inv r -> Inv r1.
Proof.
  unfold send. destruct (handle r); [| done].
  intros [= <-]. apply Inv_set_handle.
Qed.

Lemma send_fields o msg r r1 :
  send o msg r = Return r1 ->
  handle r1 <> None /\ state r1 = state r /\ waiting r1 = waiting r /\
  onread r1 = onread r /\ promises r1 = promises r /\ fs r1 = fs r /\
  ondestroyed r1 = ondestroyed r /\ destroying r1 = destroying r /\
  sent r1 = (sent r ++ [stringify o msg])%list.
Proof.
  unfold send, sent. destruct (handle r); [| done].
  intros [= <-]. by simpl.
Qed.

Lemma Inv_delete p r : Inv r -> Inv (set_waiting (delete p (waiting r)) r).
Proof.
  intros [Hf Hs Hb H1 H2 Hu Hw]. split; simpl; try done.
  - intros q w Hq. undelete Hq. eauto.
  - intros q w Hq. undelete Hq. eauto.
  - intros q w Hq. undelete Hq. eauto.
  - intros q q' wq wq' Hq Hq'. unfold in_flight in *. simpl in *.
    undelete Hq. undelete Hq'. eauto.
  - intros q q' wq wq' Hq Hq'. unfold in_flight in *. simpl in *.
    undelete Hq. undelete Hq'. eauto.
  - intros Hh. destruct (Hu Hh) as [-> ?]. split; [| done].
    apply delete_empty.
Qed.

Lemma Inv_waitOn o k r :
  Inv r -> handle r <> None ->
  match k with
  | OfStart => state r = busy /\ no_waiter OfStart r
  | OfBootstrap => state r = init /\ no_waiter OfBootstrap r
  | OfValueOf => True
  end ->
  Inv (waitOn o k r).
Proof.
  intros [Hf Hs Hb H1 H2 Hu Hw] Hh Hk. split; simpl; try done.
  - intros p w Hp. uninsert Hp; [lia |]. apply Hf in Hp. lia.
  - intros p w Hp Hc. uninsert Hp; [| eauto].
    simpl in Hc. subst k. by destruct Hk.
  - intros p w Hp Hc. uninsert Hp; [| eauto].
    simpl in Hc. subst k. by destruct Hk.
  - intros p q wp wq Hp Hq Cp Cq. unfold in_flight in *. simpl in *.
    uninsert Hp; uninsert Hq; simpl in *; try done.
    + subst k. destruct Hk as [_ Hk]. by destruct (Hk _ _ Hq).
    + subst k. destruct Hk as [_ Hk]. by destruct (Hk _ _ Hp).
    + eauto.
  - intros p q wp wq Hp Hq Cp Cq. unfold in_flight in *. simpl in *.
    uninsert Hp; uninsert Hq; simpl in *; try done.
    + subst k. destruct Hk as [_ Hk]. by destruct (Hk _ _ Hq).
    + subst k. destruct Hk as [_ Hk]. by destruct (Hk _ _ Hp).
    + eauto.
Qed.

Lemma Inv_set_state s r :
  Inv r -> handle r <> None ->
  (s <> busy -> no_waiter OfStart r) ->
  (s <> init -> no_waiter OfBootstrap r) ->
  Inv (set_state s r).
Proof.
  intros [Hf Hs Hb H1 H2 Hu Hw] Hh Hns Hnb. split; simpl; try done.
  - intros p w Hp Hc. destruct (decide (s = busy)); [done |].
    by destruct (Hns n _ _ Hp).
  - intros p w Hp Hc. destruct (decide (s = init)); [done |].
    by destruct (Hnb n _ _ Hp).
Qed.

Lemma no_waiter_by_state k s r :
  Inv r -> state r = s ->
  match k with
  | OfStart => s <> busy
  | OfBootstrap => s <> init
  | OfValueOf => False
  end ->
  no_waiter k r.
Proof.
  intros [Hf Hs Hb H1 H2 Hu Hw] Hst Hk p w Hp Hc. subst k.
  destruct (caller w) eqn:Hc; try done.
  - apply Hk. rewrite <- Hst. eauto.
  - apply Hk. rewrite <- Hst. eauto.
Qed.

Lemma no_waiter_delete k p w r :
  Inv r -> waiting r !! p = Some w -> caller w = k -> k <> OfValueOf ->
  no_waiter k (set_waiting (delete p (waiting r)) r).
Proof.
  intros Hi Hp Hc Hk q wq Hq Hcq. simpl in Hq.
  apply lookup_delete_Some in Hq as [Hne Hq]. apply Hne.
  destruct k; [| | done].
  - by apply (inv_one_boot _ Hi p q w wq).
  - by apply (inv_one_start _ Hi p q w wq).
Qed.

Lemma Inv_bootstrap r : Inv r -> handle r = None -> Inv (bootstrap r).1.
Proof.
  intros Hi Hh. destruct (inv_unspawned _ Hi Hh) as [Hw Hs].
  unfold bootstrap, sendAndWait, send. simpl.
  apply Inv_waitOn; [| done |].
  - apply Inv_set_handle, Inv_set_handle, Inv_set_fs, Hi.
  - simpl. split; [done |]. intros p w. simpl. by rewrite Hw, lookup_empty.
Qed.

Lemma Inv_sendAndWait o msg k r r1 :
  sendAndWait o msg k r = Return r1 ->
  Inv r ->
  match k with
  | OfStart => state r = busy /\ no_waiter OfStart r
  | OfBootstrap => state r = init /\ no_waiter OfBootstrap r
  | OfValueOf => True
  end ->
  Inv r1.
Proof.
  unfold sendAndWait. destruct (send o msg r) as [r0|e] eqn:Hsend; [| done].
  simpl. intros [= <-] Hi Hk.
  destruct (send_fields _ _ _ _ Hsend) as (Hh & Hs & Hw & _).
  apply Inv_waitOn; [by eapply Inv_send | done |].
  unfold no_waiter. rewrite Hs, Hw. exact Hk.
Qed.

Lemma Inv_valueOf resp r : Inv r -> Inv (valueOf resp r).1.
Proof.
  intros Hi. unfold valueOf.
  destruct (sendAndWait _ _ _ r) as [r1|e] eqn:Hs; [| done].
  simpl. apply (Inv_sendAndWait _ _ _ _ _ Hs); [done | exact I].
Qed.

Lemma Inv_start pkg args r : Inv r -> Inv (start pkg args r).1.
Proof.
  intros Hi. unfold start. destruct (state r) eqn:Hst; try done.
  assert (Hh : handle r <> None).
  { intros Hh. destruct (inv_unspawned _ Hi Hh) as [_ Hs]. congruence. }
  assert (Hb : Inv (set_state busy r)).
  { apply Inv_set_state; try done.
    intros _. by apply (no_waiter_by_state OfBootstrap idle). }
  destruct (package_name pkg) as [name|e]; [| done].
  simpl. destruct (ensureSymlink _ _ _) as [fs3|e]; [| by apply Inv_set_fs].
  destruct (sendAndWait _ _ _ _) as [r2|e] eqn:Hs; [| by apply Inv_set_fs].
  simpl. eapply Inv_sendAndWait; [exact Hs | by apply Inv_set_fs |].
  simpl. split; [done |].
  assert (Hn : no_waiter OfStart r) by (by apply (no_waiter_by_state OfStart idle)).
  exact Hn.
Qed.

Lemma Inv_destroy r : Inv r -> Inv (destroy r).1.
Proof.
  intros Hi. unfold destroy.
  destruct (send _ _ r) as [r1|e] eqn:Hs; [| done].
  simpl. pose proof (Inv_send _ _ _ _ Hs Hi) as [Hf ? ? ? ? ? ?].
  split; simpl; try done.
  intros p w Hp. apply Hf in Hp. lia.
Qed.

Lemma Inv_afterDestroy r : Inv r -> Inv (afterDestroy r).1.
Proof.
  intros Hi. unfold afterDestroy. simpl.
  destruct (ondestroyed r); [| by apply Inv_set_fs].
  destruct (decide _); simpl; [| by apply Inv_set_fs].
  by apply Inv_set_destroying, Inv_set_fs.
Qed.

Lemma Inv_continue k res r :
  Inv r -> handle r <> None ->
  match k with
  | OfStart => state r = busy /\ no_waiter OfStart r
  | OfBootstrap => state r = init /\ no_waiter OfBootstrap r
  | OfValueOf => True
  end ->
  Inv (continue k res r).1.
Proof.
  intros Hi Hh Hk. unfold continue. destruct res as [msg|e]; [| done].
  destruct k; simpl; [| | done].
  - destruct Hk as [Hs Hn]. apply Inv_set_state; try done.
    intros _. by apply (no_waiter_by_state OfStart init).
  - destruct Hk as [Hs Hn]. apply Inv_set_state; try done.
    intros _. by apply (no_waiter_by_state OfBootstrap busy).
Qed.

Lemma Inv_handleMessage r msg : Inv r -> Inv (handleMessage r msg).1.
Proof.
  intros Hi. unfold handleMessage.
  destruct (onread r) as [p|]; [| done].
  destruct (waiting r !! p) as [w|] eqn:Hp; [| done].
  assert (Hh : handle r <> None).
  { intros Hh. destruct (inv_unspawned _ Hi Hh) as [Hw _].
    by rewrite Hw, lookup_empty in Hp. }
  pose proof (Inv_delete p _ Hi) as Hd.
  assert (Hk : match caller w with
               | OfStart =>
                   state r = busy /\
                   no_waiter OfStart (set_waiting (delete p (waiting r)) r)
               | OfBootstrap =>
                   state r = init /\
                   no_waiter OfBootstrap (set_waiting (delete p (waiting r)) r)
               | OfValueOf => True
               end).
  { destruct (caller w) eqn:Hc; [| | done].
    - split; [by apply (inv_boot _ Hi p w) |].
      by apply (no_waiter_delete OfBootstrap p w).
    - split; [by apply (inv_start _ Hi p w) |].
      by apply (no_waiter_delete OfStart p w). }
  unfold resume. destruct (decide _).
  - pose proof (Inv_continue (caller w) (sendAndWait_return (message (parse msg)))
        (set_waiting (delete p (waiting r)) r) Hd Hh Hk) as Hc.
    by destruct (continue _ _ _) as [r1 s].
  - simpl. by apply Inv_waitOn.
Qed.

Lemma Inv_step r e : Inv r -> Inv (step r e).
Proof.
  intros Hi. destruct e; simpl.
  - by apply Inv_start.
  - by apply Inv_valueOf.
  - by apply Inv_destroy.
  - by apply Inv_handleMessage.
  - by apply Inv_afterDestroy.
Qed.

Lemma reachable_Inv r : reachable r -> Inv r.
Proof.
  induction 1 as [rt0 id0 fs0|r Hr IH Hh|r e Hr IH].
  - apply Inv_new.
  - by apply Inv_bootstrap.
  - by apply Inv_step.
Qed.

Lemma handleMessage_discard r g o k :
  waits_for o k r -> op g <> o ->
  exists r', handleMessage r g = (r', None) /\ waits_for o k r' /\
             same_but_reads r r'.
Proof.
  intros (p & Hon & Hw) Hne. unfold handleMessage, parse.
  rewrite Hon, Hw. unfold resume. simpl.
  destruct (decide (op g = o)); [done |].
  eexists. split; [done |]. split.
  - exists (promises r). simpl. by rewrite lookup_insert_eq.
  - by repeat split.
Qed.

Lemma deliver_discard r pre o k :
  waits_for o k r -> Forall (fun g => op g <> o) pre ->
  exists r', deliver r pre = (r', []) /\ waits_for o k r' /\
             same_but_reads r r'.
Proof.
  intros Hw Hpre. revert r Hw.
  induction Hpre as [|g pre Hg _ IH]; intros r Hw.
  - exists r. by repeat split.
  - destruct (handleMessage_discard _ _ _ _ Hw Hg) as (r1 & H1 & Hw1 & Hs1).
    destruct (IH _ Hw1) as (r2 & H2 & Hw2 & Hs2).
    exists r2. simpl. rewrite H1, H2. split; [done |]. split; [done |].
    unfold same_but_reads in *.
    destruct Hs1 as (? & ? & ? & ? & ? & ? & ? & ?).
    destruct Hs2 as (? & ? & ? & ? & ? & ? & ? & ?).
    repeat split; congruence.
Qed.

Lemma sendAndWait_waits o msg k r r1 :
  sendAndWait o msg k r = Return r1 ->
  waits_for o k r1 /\ sent r1 = (sent r ++ [stringify o msg])%list /\
  state r1 = state r /\ fs r1 = fs r.
Proof.
  unfold sendAndWait. destruct (send o msg r) as [r0|e] eqn:Hsend; [| done].
  simpl. intros [= <-].
  destruct (send_fields _ _ _ _ Hsend) as (_ & Hs & _ & _ & _ & Hf & _ & _ & Hsent).
  split; [| by rewrite <- Hsent, <- Hs, <- Hf].
  exists (promises r0). simpl. by rewrite lookup_insert_eq.
Qed.

Lemma handleMessage_fields r msg :
  let r' := (handleMessage r msg).1 in
  id r' = id r /\ rt r' = rt r /\ handle r' = handle r /\
  ondestroyed r' = ondestroyed r /\ workingDir r' = workingDir r /\
  destroying r' = destroying r /\ fs r' = fs r.
Proof.
  unfold handleMessage. destruct (onread r) as [p|]; [| done].
  destruct (waiting r !! p) as [w|]; [| done].
  unfold resume. destruct (decide _); [| done].
  unfold continue. destruct (sendAndWait_return _); [| done].
  by destruct (caller w).
Qed.

Lemma handleMessage_settles r msg s :
  (handleMessage r msg).2 = Some s -> call s <> Destroy.
Proof.
  unfold handleMessage. destruct (onread r) as [p|]; [| done].
  destruct (waiting r !! p) as [w|]; [| done].
  unfold resume. destruct (decide _); [| done].
  unfold continue. destruct (sendAndWait_return _).
  - destruct (caller w); simpl; by intros [= <-].
  - destruct (caller w); simpl; by intros [= <-].
Qed.

Lemma deliver_fields r msgs :
  let r' := (deliver r msgs).1 in
  id r' = id r /\ rt r' = rt r /\ handle r' = handle r /\
  ondestroyed r' = ondestroyed r /\ workingDir r' = workingDir r /\
  destroying r' = destroying r /\ fs r' = fs r.
Proof.
  revert r. induction msgs as [|m msgs IH]; intros r; [done |].
  simpl. pose proof (handleMessage_fields r m) as Hm.
  destruct (handleMessage r m) as [r1 s]. specialize (IH r1).
  destruct (deliver r1 msgs) as [r2 ss]. simpl in *.
  destruct Hm as (? & ? & ? & ? & ? & ? & ?).
  destruct IH as (? & ? & ? & ? & ? & ? & ?).
  repeat split; congruence.
Qed.

Lemma deliver_settles r msgs :
  Forall (fun s => call s <> Destroy) (deliver r msgs).2.
Proof.
  revert r. induction msgs as [|m msgs IH]; intros r; [by constructor |].
  simpl. pose proof (handleMessage_settles r m) as Hm.
  destruct (handleMessage r m) as [r1 s]. specialize (IH r1).
  destruct (deliver r1 msgs) as [r2 ss]. simpl in *.
  destruct s as [s|]; simpl; [| done]. constructor; [| done]. by apply Hm.
Qed.

Lemma Inv_deliver r msgs : Inv r -> Inv (deliver r msgs).1.
Proof.
  revert r. induction msgs as [|m msgs IH]; intros r Hi; [done |].
  simpl. pose proof (Inv_handleMessage r m Hi) as Hm.
  destruct (handleMessage r m) as [r1 s]. specialize (IH r1 Hm).
  by destruct (deliver r1 msgs) as [r2 ss].
Qed.

Lemma remove_beneath p fs0 q : q ∈ remove p fs0 -> beneath p q = false.
Proof. unfold remove. intros Hq. by apply elem_of_filter in Hq as [? _]. Qed.

Lemma remove_self p fs0 : p ∉ remove p fs0.
Proof.
  intros Hp. apply remove_beneath in Hp. unfold beneath in Hp.
  by rewrite String.eqb_refl in Hp.
Qed.

End RunnableFacts.

(** * The claims about the Runnable *)

Section RunnableClaims.
Context `{ParentHost}.
Import Runnable.

(** C3, as amended.  A [start()] on a Runnable whose state is not idle
    rejects with the busy error and changes nothing: the Runnable, and so
    its state and the frames given to the transport, are what they were.
    Hence, on a Runnable bootstrapped once, at most one request made by
    [start()] is in flight; [valueOf()] is not gated by the state. *)
Theorem start_refused_unless_idle (r : PluginRunnable) (pkg : value) (args : list value) :
  (state r <> idle ->
   start pkg args r =
     (r, Failed (BusyError r)) /\
   length (sent (start pkg args r).1) = length (sent r) /\
   state (start pkg args r).1 = state r) /\
  (reachable r -> one_waiter OfStart r).
Proof.
  split.
  - intros Hs.
    assert (Hst : start pkg args r =
      (r, Failed (BusyError r))).
    { unfold start. revert Hs. by destruct (state r). }
    by rewrite Hst.
  - intros Hr. apply inv_one_start. by apply reachable_Inv.
Qed.

(** C6.  After [sendAndWait(op, msg)] has sent its frame, inbound frames
    of another operator are discarded: no call settles and the Runnable
    still waits for [op].  The first frame of operator [op] ends the wait:
    if its event is pong its message is what [sendAndWait] returns to the
    calling method, otherwise the call rejects with the protocol error. *)
Theorem sendAndWait_matches_by_operator
    (r r1 : PluginRunnable) (o : PluginOperator) (msg : PluginMessage)
    (k : Caller) (pre : list wire) (f : wire) :
  sendAndWait o msg k r = Return r1 ->
  Forall (fun g => op g <> o) pre ->
  op f = o ->
  sent r1 = (sent r ++ [stringify o msg])%list /\
  exists r2 p,
    deliver r1 pre = (r2, []) /\
    same_but_reads r1 r2 /\
    waits_for o k r2 /\
    onread r2 = Some p /\
    handleMessage r2 f =
      let r3 := set_waiting (delete p (waiting r2)) r2 in
      if String.eqb (event (message f)) "pong"
      then (let (r4, s) := continue k (Return (message f)) r3 in (r4, Some s))
      else (r3, Some {| call := call_of k;
                        result := Throw ProtocolError |}).
Proof.
  intros Hsw Hpre Hf.
  destruct (sendAndWait_waits _ _ _ _ _ Hsw) as (Hw & Hsent & _).
  split; [done |].
  destruct (deliver_discard _ _ _ _ Hw Hpre) as (r2 & Hd & Hw2 & Hsame).
  destruct Hw2 as (p & Hon & Hp).
  exists r2, p. split; [done |]. split; [done |].
  split; [by exists p |]. split; [done |].
  unfold handleMessage, parse. rewrite Hon, Hp. unfold resume. simpl.
  destruct (decide (op f = o)); [| done].
  unfold sendAndWait_return. by destruct (String.eqb _ _).
Qed.

(** C9.  [destroy()] gives the WRITE/destroy frame to the transport and
    registers no read, so it does not wait for a pong.  No inbound frame
    settles its promise.  When the exit notification fires, [afterDestroy]
    removes the working directory with everything beneath it and then
    resolves the promise: the working directory is absent. *)
Theorem destroy_resolves_on_exit (r r1 : PluginRunnable) (msgs : list wire) :
  reachable r ->
  destroy r = (r1, Suspended) ->
  sent r1 = (sent r ++ [stringify WRITE {| event := "destroy"; params := None |}])%list /\
  onread r1 = onread r /\ waiting r1 = waiting r /\
  Forall (fun s => call s <> Destroy) (deliver r1 msgs).2 /\
  exists r3,
    afterDestroy (deliver r1 msgs).1 =
      (r3, Some {| call := Destroy; result := Return ADestroy |}) /\
    (workingDir r3 ∉ fs r3) /\
    (forall q, q ∈ fs r3 -> beneath (workingDir r3) q = false).
Proof.
  intros Hr Hd. unfold destroy in Hd.
  destruct (send _ _ r) as [r0|e] eqn:Hsend; [| done].
  destruct (send_fields _ _ _ _ Hsend) as (_ & _ & Hw & Hon & _ & _ & _ & _ & Hsent).
  pose proof (Inv_send _ _ _ _ Hsend (reachable_Inv _ Hr)) as Hi0.
  injection Hd as <-.
  split; [done |]. split; [done |]. split; [done |].
  split; [apply deliver_settles |].
  match goal with |- context [deliver ?x msgs] => set (r1 := x) end.
  assert (Hi1 : Inv r1).
  { destruct Hi0 as [Hf ? ? ? ? ? ?]. split; subst r1; simpl; try done.
    intros p w Hp. apply Hf in Hp. lia. }
  pose proof (Inv_deliver r1 msgs Hi1) as Hi2.
  destruct (deliver_fields r1 msgs) as (Hid & Hrt & _ & Hod & Hwd & Hdg & Hfs).
  set (r2 := (deliver r1 msgs).1) in *.
  unfold afterDestroy. simpl. rewrite Hod. simpl.
  rewrite Hdg. simpl.
  destruct (decide (promises r0 ∈ destroying r0 ∪ {[promises r0]})) as [_|Hn];
    [| destruct Hn; by apply elem_of_union_r, elem_of_singleton].
  eexists. split; [done |]. simpl.
  rewrite <- (inv_workingDir _ Hi2).
  split; [apply remove_self |]. intros q. apply remove_beneath.
Qed.

(** C10, as amended.  A frame handled while the read registered in
    [onread] is not pending, none registered or the registered one already
    resolved, changes nothing and settles nothing.  Otherwise the frame
    goes to that registered read, which is consumed, and to no other:
    every other pending read stays pending as it is.  Several reads can be
    pending at once; only the one [onread] holds receives frames. *)
Theorem handleMessage_single_pending_read
    (r : PluginRunnable) (msg : wire)
    (r' : PluginRunnable) (msg' : wire) (p q : nat) (w : Waiter) :
  (pending_read r = None -> handleMessage r msg = (r, None)) /\
  (reachable r' -> pending_read r' = Some p ->
   waiting (handleMessage r' msg').1 !! p = None /\
   (waiting r' !! q = Some w -> q <> p ->
    waiting (handleMessage r' msg').1 !! q = Some w)).
Proof.
  split.
  - unfold pending_read, handleMessage.
    destruct (onread r) as [p0|]; [| done]. simpl.
    by destruct (waiting r !! p0).
  - intros Hr Hp. unfold pending_read in Hp.
    destruct (onread r') as [p0|] eqn:Hon; [| done]. simpl in Hp.
    destruct (waiting r' !! p0) as [wp|] eqn:Hw; [| done]. simpl in Hp.
    injection Hp as ->.
    pose proof (reachable_Inv _ Hr) as Hi.
    pose proof (inv_fresh _ Hi _ _ Hw) as Hlt.
    unfold handleMessage. rewrite Hon, Hw. unfold resume.
    destruct (decide _).
    + unfold continue. destruct (sendAndWait_return _).
      * destruct (caller wp); simpl;
          (split; [by rewrite lookup_delete_eq |
                   intros Hq Hne; by rewrite lookup_delete_ne]).
      * simpl. split; [by rewrite lookup_delete_eq |].
        intros Hq Hne. by rewrite lookup_delete_ne.
    + simpl. split.
      * rewrite lookup_insert_ne by lia. by rewrite lookup_delete_eq.
      * intros Hq Hne. pose proof (inv_fresh _ Hi _ _ Hq) as Hlt'.
        rewrite lookup_insert_ne by lia. by rewrite lookup_delete_ne.
Qed.

End RunnableClaims.

(** * The claims about the subprocess endpoint *)

Section ClientClaims.
Context `{ClientHost}.
Import Client.

(** C4.  When the plugin called for a WRITE/start request raises, the
    endpoint prints the error, sends no frame and leaves the Result Table
    as it was. *)
Theorem plugin_error_is_logged_without_reply
    (c : state) (proto : PluginProto) (pkg : value) (rest : list value)
    (c1 : state) (f : Plugin) (args : list value) (err : Error) :
  exited c = None ->
  op proto = WRITE ->
  event (message proto) = "start" ->
  params (message proto) = Some (pkg :: rest) ->
  prepare pkg rest c = (c1, Return (f, args)) ->
  f args = Throw err ->
  sent (on_message c proto) = sent c /\
  previousResults (on_message c proto) = previousResults c /\
  stderr (on_message c proto) = (stderr c ++ [err])%list.
Proof.
  intros Hex Hop Hev Hps Hp Hf.
  rewrite (on_message_start _ _ _ _ _ _ _ Hex Hop Hev Hps Hp), Hf.
  destruct (prepare_frame _ _ _ _ _ Hp) as (_ & Ht & Hs & He & _).
  simpl. by rewrite Ht, Hs, He.
Qed.

Lemma prepare_set_clientId x pkg pluginArgs c :
  prepare pkg pluginArgs (set_clientId x c) =
    (set_clientId x (prepare pkg pluginArgs c).1, (prepare pkg pluginArgs c).2).
Proof.
  unfold prepare. destruct boa_installed; [| done].
  destruct (PYTHONPATH pkg) as [pp|]; [| done].
  replace (if truthy pp then setenv pp (set_clientId x c) else set_clientId x c)
    with (set_clientId x (if truthy pp then setenv pp c else c))
    by (by destruct (truthy pp)).
  destruct (load pkg) as [fn|]; [| done]. simpl.
  destruct (map_deserializeArg _ _); [| done].
  by destruct fn.
Qed.

Lemma on_message_WRITE_set_clientId x c proto :
  op proto = WRITE ->
  on_message (set_clientId x c) proto = set_clientId x (on_message c proto).
Proof.
  intros Hop. unfold on_message, parse. simpl.
  destruct (exited c); [done |]. rewrite Hop. simpl.
  unfold handle_WRITE. destruct (String.eqb _ "start").
  - destruct (_ ≫= _) as [pkg|e]; [| done].
    unfold invoke. rewrite prepare_set_clientId.
    destruct (prepare pkg _ c) as [c1 [[f args]|e]]; simpl; [| done].
    destruct (f args) as [resp|err]; [| done].
    by destruct (truthy resp).
  - by destruct (String.eqb _ "destroy").
Qed.

Lemma on_message_clientId c proto :
  clientId (on_message c proto) <> clientId c ->
  op proto = START /\ event (message proto) = "handshake" /\
  exists i, index (params (message proto)) 0 = Return (VStr i) /\
            clientId (on_message c proto) = Some i.
Proof.
  unfold on_message, parse. destruct (exited c); [done |].
  destruct (op proto); simpl; try done.
  - unfold handle_START.
    destruct (String.eqb _ _) eqn:Hev; [| done].
    apply String.eqb_eq in Hev.
    destruct (index _ _) as [[| |b|n|s|l|ps|m]|e]; try done.
    intros _. split; [done |]. split; [done |]. by exists s.
  - unfold handle_WRITE. destruct (String.eqb _ "start").
    + destruct (_ ≫= _) as [pkg|e]; [| done].
      unfold invoke.
      destruct (prepare pkg _ c) as [c1 [[f args]|e]] eqn:Hp;
        destruct (prepare_frame _ _ _ _ _ Hp) as (Hc & _); simpl.
      * destruct (f args) as [resp|err]; [| done].
        by destruct (truthy resp).
      * done.
    + by destruct (String.eqb _ "destroy").
Qed.

End ClientClaims.

(** * The claims about the two processes together *)

Section SystemClaims.
Context `{ClientHost} `{ParentHost}.
Import Runnable.

Lemma start_suspended pkg args r r1 :
  start pkg args r = (r1, Suspended) ->
  exists name, package_name pkg = Return name /\
  waits_for WRITE OfStart r1 /\
  sent r1 = (sent r ++ [stringify WRITE
               {| event := "start"; params := Some (pkg :: args) |}])%list.
Proof.
  unfold start. destruct (state r); try done.
  destruct (package_name pkg) as [name|]; [| done]. simpl.
  destruct (ensureSymlink _ _ _) as [fs3|]; [| done].
  destruct (sendAndWait _ _ _ _) as [r2|] eqn:Hs; [| done].
  intros [= <-]. exists name. split; [done |].
  by destruct (sendAndWait_waits _ _ _ _ _ Hs) as (Hw & Hsent & _).
Qed.

(** The first half of the result round trip: a truthy result is stored
    under a fresh id, and [start()] resolves to the reference of that id. *)
Lemma nonempty_result_resolves_to_reference
    (s : System.t) (pkg : value) (args : list value) (r1 : PluginRunnable)
    (c1 : Client.state) (f : Plugin) (args' : list value) (v : value) :
  start pkg args (System.parent s) = (r1, Suspended) ->
  Client.exited (System.child s) = None ->
  Client.prepare pkg args (System.child s) = (c1, Return (f, args')) ->
  f args' = Return v ->
  truthy v = true ->
  uuid_v4 (Client.uuids (System.child s)) <> "" ->
  exists s',
    System.round (start pkg args) s =
      (s', Suspended,
       [{| call := Start;
           result := Return (AStart (Some
             {| resp_id := VStr (uuid_v4 (Client.uuids (System.child s))) |})) |}]) /\
    Client.previousResults (System.child s')
      !! uuid_v4 (Client.uuids (System.child s)) = Some v /\
    state (System.parent s') = idle.
Proof.
  intros Hst Hex Hp Hf Hv Hid.
  destruct (start_suspended _ _ _ _ Hst) as (name & _ & (p & Hon & Hw) & Hsent).
  destruct (prepare_frame _ _ _ _ _ Hp) as (_ & Ht & Hs & _ & He & Hu & _).
  unfold System.round. rewrite Hst, Hsent, drop_app_length.
  unfold System.serve, Client.run. simpl.
  rewrite (on_message_start (System.child s)
             (stringify WRITE {| event := "start"; params := Some (pkg :: args) |})
             pkg args c1 f args' Hex eq_refl eq_refl eq_refl Hp), Hf, Hv.
  simpl. rewrite Hs, drop_app_length, He, Hex, Hu. simpl.
  unfold handleMessage, parse. rewrite Hon, Hw. simpl.
  apply String.eqb_neq in Hid. rewrite Hid. simpl.
  eexists. split; [reflexivity |]. simpl. by rewrite lookup_insert_eq.
Qed.

(** C7, as amended.  The endpoint has no handshake gate: a WRITE frame is
    handled the same way whatever the client id is, set or not, and leaves
    it as it is.  The client id changes only on a START/handshake frame
    whose first param is a string.  The order is kept on the other side,
    for [start()] only and on a Runnable bootstrapped once: before
    [bootstrap()] and while its handshake is unanswered the state is
    init, and in state init [start()] rejects and sends no frame.
    [destroy()] is not gated: once the child is forked it sends its
    WRITE/destroy frame whatever the state. *)
Theorem write_is_not_gated_by_handshake
    (c : Client.state) (proto : PluginProto) (x : option string)
    (c' : Client.state) (frame : PluginProto)
    (r : PluginRunnable) (p : nat) (w : Waiter)
    (pkg : value) (args : list value)
    (r' : PluginRunnable) (h : ChildProcess) :
  (op proto = WRITE ->
   Client.on_message (Client.set_clientId x c) proto =
     Client.set_clientId x (Client.on_message c proto)) /\
  (Client.clientId (Client.on_message c' frame) <> Client.clientId c' ->
   op frame = START /\ event (message frame) = "handshake" /\
   exists i, index (params (message frame)) 0 = Return (VStr i) /\
             Client.clientId (Client.on_message c' frame) = Some i) /\
  (reachable r ->
   handle r = None \/
     (in_flight r !! p = Some w /\ caller w = OfBootstrap) ->
   state r = init /\
   start pkg args r = (r, Failed (BusyError r)) /\
   sent (start pkg args r).1 = sent r) /\
  (handle r' = Some h ->
   sent (destroy r').1 =
     (sent r' ++ [stringify WRITE {| event := "destroy"; params := None |}])%list).
Proof.
  split; [apply on_message_WRITE_set_clientId |].
  split; [apply on_message_clientId |].
  split.
  - intros Hr Hcase. pose proof (reachable_Inv _ Hr) as Hi.
    assert (Hs : state r = init).
    { destruct Hcase as [Hh|[Hp Hc]].
      - by destruct (inv_unspawned _ Hi Hh).
      - by apply (inv_boot _ Hi p w). }
    assert (Hst : start pkg args r = (r, Failed (BusyError r))).
    { unfold start. by rewrite Hs. }
    by rewrite Hst.
  - intros Hh. unfold destroy, send, sent. by rewrite Hh.
Qed.

(** C8.  When the plugin called for a [start()] returns a falsy value, the
    endpoint replies pong with no params, stores nothing, and the
    [start()] call resolves to null, the Runnable being idle again. *)
Theorem empty_result_resolves_to_null
    (s : System.t) (pkg : value) (args : list value) (r1 : PluginRunnable)
    (c1 : Client.state) (f : Plugin) (args' : list value) (v : value) :
  start pkg args (System.parent s) = (r1, Suspended) ->
  Client.exited (System.child s) = None ->
  Client.prepare pkg args (System.child s) = (c1, Return (f, args')) ->
  f args' = Return v ->
  truthy v = false ->
  exists s',
    System.round (start pkg args) s =
      (s', Suspended, [{| call := Start; result := Return (AStart None) |}]) /\
    Client.sent (System.child s') =
      (Client.sent (System.child s) ++
         [stringify WRITE {| event := "pong"; params := Some [] |}])%list /\
    Client.previousResults (System.child s') =
      Client.previousResults (System.child s) /\
    state (System.parent s') = idle.
Proof.
  intros Hst Hex Hp Hf Hv.
  destruct (start_suspended _ _ _ _ Hst) as (name & _ & (p & Hon & Hw) & Hsent).
  destruct (prepare_frame _ _ _ _ _ Hp) as (_ & Ht & Hs & _ & He & _).
  unfold System.round. rewrite Hst, Hsent, drop_app_length.
  unfold System.serve, Client.run. simpl.
  rewrite (on_message_start (System.child s)
             (stringify WRITE {| event := "start"; params := Some (pkg :: args) |})
             pkg args c1 f args' Hex eq_refl eq_refl eq_refl Hp), Hf, Hv.
  simpl. rewrite Hs, drop_app_length, He, Hex. simpl.
  unfold handleMessage, parse. rewrite Hon, Hw. simpl.
  eexists. split; [reflexivity |]. simpl. by rewrite Hs, Ht.
Qed.

End SystemClaims.

(** * The definitions run on the demonstration host *)

Section Runs.
Import Runnable Demo.

Lemma reachable_fresh : reachable fresh.
Proof. apply reachable_bootstrap; [apply reachable_new | reflexivity]. Qed.

Lemma reachable_ready : reachable ready.
Proof. apply reachable_step, reachable_fresh. Qed.

Lemma reachable_started : reachable started.
Proof. apply reachable_step, reachable_ready. Qed.

Lemma reachable_overlapping : reachable overlapping.
Proof. apply reachable_step, reachable_started. Qed.

Lemma reachable_orphaned : reachable orphaned.
Proof. apply reachable_step, reachable_overlapping. Qed.

(** The scenario of the specification: [start(pluginA, {x: 1})] where
    pluginA returns [{y: 2}] gives a reference. *)
Example start_pluginA_gives_a_reference :
  (System.round (start (package "plugin-a") [VObj [("x", VNum 1)]]) booted).2 =
    [{| call := Start; result := Return (AStart (Some (reference "uuid-0"))) |}].
Proof. vm_compute. reflexivity. Qed.

(** C1, on the code.  The endpoint holds the result of pluginA under
    [uuid-0]; the READ request carrying that reference leaves the endpoint
    as it was: no pong frame, no frame at all. *)
Theorem READ_request_is_not_answered :
  Client.previousResults (System.child answered) !! "uuid-0" =
    Some (VObj [("y", VNum 2)]) /\
  Client.exited (System.child answered) = None /\
  Client.on_message (System.child answered) (read_frame "uuid-0") =
    System.child answered.
Proof.
  split; [vm_compute; reflexivity |]. split; [vm_compute; reflexivity |].
  by apply on_message_READ.
Qed.

(** C2, on the code.  [start()] of a plugin that returns [{y: 2}] resolves
    to a reference, but the [valueOf()] of that reference sends its READ
    request and stays suspended: the endpoint sends nothing back, and no
    value, round trip or other, is returned. *)
Theorem valueOf_of_a_reference_stays_suspended :
  (System.round (start (package "plugin-a") [VObj [("x", VNum 1)]]) booted).2 =
    [{| call := Start; result := Return (AStart (Some (reference "uuid-0"))) |}] /\
  (System.round (valueOf (reference "uuid-0")) answered).1.2 = Suspended /\
  (System.round (valueOf (reference "uuid-0")) answered).2 = [] /\
  Client.sent (System.child (System.round (valueOf (reference "uuid-0")) answered).1.1) =
    Client.sent (System.child answered) /\
  map_to_list (in_flight (System.parent
      (System.round (valueOf (reference "uuid-0")) answered).1.1)) =
    [(2%nat, {| wait_op := READ; caller := OfValueOf |})].
Proof. vm_compute. repeat split. Qed.

(** C3, as stated, fails: with a [start()] in flight, [valueOf()] sends a
    second request; two requests are in flight and neither is answered. *)
Lemma two_requests_in_flight :
  reachable overlapping /\
  state overlapping = busy /\
  size (in_flight overlapping) = 2%nat /\
  length (sent overlapping) = 3%nat.
Proof. split; [apply reachable_overlapping |]. vm_compute. repeat split. Qed.

(** C5, on the code.  [start(pluginA, null)]: null is not a reference, so
    the plugin should be called with null itself; but reading
    [arg.__flag__] of null throws inside the [try], the plugin is not
    called, the error is printed, nothing is replied, and the [start()]
    stays suspended with the Runnable busy. *)
Theorem null_argument_fails_the_request :
  Client.resolved_argument (Client.previousResults (System.child booted)) VNull = VNull /\
  Client.deserializeArg (Client.previousResults (System.child booted)) VNull =
    Throw (TypeError "Cannot read property '__flag__' of null") /\
  (System.round (start (package "plugin-a") [VNull]) booted).2 = [] /\
  state (System.parent (System.round (start (package "plugin-a") [VNull]) booted).1.1) = busy /\
  Client.invoked (System.child
      (System.round (start (package "plugin-a") [VNull]) booted).1.1) = [] /\
  Client.sent (System.child
      (System.round (start (package "plugin-a") [VNull]) booted).1.1) =
    Client.sent (System.child booted) /\
  Client.stderr (System.child
      (System.round (start (package "plugin-a") [VNull]) booted).1.1) =
    [TypeError "Cannot read property '__flag__' of null"].
Proof. vm_compute. repeat split. Qed.

(** The table is a plain object: a reference whose id names a member of
    [Object.prototype] is resolved to that member, which no plugin
    stored. *)
Example inherited_member_is_taken_for_a_result :
  Client.deserializeArg ∅ (RunnableResponse_value (reference "constructor")) =
    Return (VNative (NFunction "Object")) /\
  Client.deserializeArg ∅ (RunnableResponse_value (reference "uuid-0")) =
    Return (RunnableResponse_value (reference "uuid-0")).
Proof. vm_compute. repeat split. Qed.

(** C10, as stated, fails: with a [start()] suspended in its read, a
    [valueOf()] makes a second read, so two calls await a frame at once;
    the pong that answers the start goes to the read of the valueOf,
    which discards it, and the start stays suspended. *)
Lemma two_reads_are_pending_at_once :
  reachable overlapping /\
  waiting overlapping !! 1%nat = Some {| wait_op := WRITE; caller := OfStart |} /\
  waiting overlapping !! 2%nat = Some {| wait_op := READ; caller := OfValueOf |} /\
  pending_read overlapping = Some 2%nat /\
  (handleMessage overlapping (pong WRITE [])).2 = None /\
  waiting (handleMessage overlapping (pong WRITE [])).1 !! 1%nat =
    Some {| wait_op := WRITE; caller := OfStart |}.
Proof. split; [apply reachable_overlapping |]. vm_compute. repeat split. Qed.

(** C7, as stated, fails: an endpoint that has seen no handshake handles a
    WRITE/start frame, calls the plugin and replies; it handles a
    WRITE/destroy frame as well. *)
Lemma write_is_processed_before_handshake :
  Client.clientId Client.initial = None /\
  Client.clientId (Client.on_message Client.initial (start_frame "plugin-b" [])) = None /\
  Client.invoked (Client.on_message Client.initial (start_frame "plugin-b" [])) =
    [(package "plugin-b", [])] /\
  Client.sent (Client.on_message Client.initial (start_frame "plugin-b" [])) =
    [pong WRITE []] /\
  Client.exited (Client.on_message Client.initial
                   (stringify WRITE {| event := "destroy"; params := None |})) = Some 0.
Proof. vm_compute. repeat split. Qed.

End Runs.

(** * The hypotheses of the theorems hold on the demonstration host *)

Section Witnesses.
Import Runnable Demo.

(** A Runnable with a start in flight refuses the next one. *)
Lemma start_refused_unless_idle_witness :
  state started <> idle /\ reachable started /\
  start (package "plugin-b") [] started =
    (started, Failed (BusyError started)) /\
  one_waiter OfStart started.
Proof.
  assert (Hs : state started <> idle) by (vm_compute; discriminate).
  pose proof reachable_started as Hr.
  destruct (start_refused_unless_idle started (package "plugin-b") []) as [H1 H2].
  split; [exact Hs |]. split; [exact Hr |].
  split; [exact (proj1 (H1 Hs)) | exact (H2 Hr)].
Defined.

(** A READ request, two frames of other operators, then the READ pong. *)
Lemma sendAndWait_matches_by_operator_witness :
  exists r1,
    sendAndWait READ {| event := "deserialize response"; params := None |}
      OfValueOf ready = Return r1 /\
    sent r1 = (sent ready ++
      [stringify READ {| event := "deserialize response"; params := None |}])%list.
Proof.
  eexists. split; [reflexivity |].
  refine (proj1 (sendAndWait_matches_by_operator ready _ READ
            {| event := "deserialize response"; params := None |} OfValueOf
            [pong WRITE []; pong START []] (pong READ [VStr "null"]) _ _ _)).
  - reflexivity.
  - repeat constructor; discriminate.
  - reflexivity.
Defined.

(** A bootstrapped Runnable destroyed, a stray pong, then the disconnect. *)
Lemma destroy_resolves_on_exit_witness :
  exists r1,
    reachable ready /\ destroy ready = (r1, Suspended) /\
    sent r1 = (sent ready ++
      [stringify WRITE {| event := "destroy"; params := None |}])%list /\
    exists r3,
      afterDestroy (deliver r1 [pong WRITE []]).1 =
        (r3, Some {| call := Destroy; result := Return ADestroy |}) /\
      workingDir r3 ∉ fs r3.
Proof.
  eexists. split; [apply reachable_ready |]. split; [reflexivity |].
  destruct (destroy_resolves_on_exit ready _ [pong WRITE []] reachable_ready eq_refl)
    as (Hsent & _ & _ & _ & r3 & Hafter & Habsent & _).
  split; [exact Hsent |]. exists r3. by split.
Defined.

(** No read pending on the bootstrapped Runnable; two pending once a
    valueOf overlaps a start, of which the READ pong reaches the
    registered one only. *)
Lemma handleMessage_single_pending_read_witness :
  pending_read ready = None /\ reachable overlapping /\
  pending_read overlapping = Some 2%nat /\
  waiting overlapping !! 1%nat = Some {| wait_op := WRITE; caller := OfStart |} /\
  handleMessage ready (pong WRITE []) = (ready, None) /\
  waiting (handleMessage overlapping (pong READ [VStr "null"])).1 !! 2%nat = None /\
  waiting (handleMessage overlapping (pong READ [VStr "null"])).1 !! 1%nat =
    Some {| wait_op := WRITE; caller := OfStart |}.
Proof.
  assert (Hn : pending_read ready = None) by (vm_compute; reflexivity).
  assert (Hp : pending_read overlapping = Some 2%nat) by (vm_compute; reflexivity).
  assert (Hw : waiting overlapping !! 1%nat =
               Some {| wait_op := WRITE; caller := OfStart |})
    by (vm_compute; reflexivity).
  destruct (handleMessage_single_pending_read ready (pong WRITE [])
              overlapping (pong READ [VStr "null"]) 2%nat 1%nat
              {| wait_op := WRITE; caller := OfStart |}) as [H1 H2].
  destruct (H2 reachable_overlapping Hp) as [H3 H4].
  split; [exact Hn |]. split; [exact reachable_overlapping |].
  split; [exact Hp |]. split; [exact Hw |].
  split; [exact (H1 Hn) |]. split; [exact H3 |].
  apply (H4 Hw). discriminate.
Defined.

(** pluginC throws. *)
Lemma plugin_error_is_logged_without_reply_witness :
  Client.prepare (package "plugin-c") [] Client.initial =
    (Client.initial, Return (pluginC, [])) /\
  Client.sent (Client.on_message Client.initial (start_frame "plugin-c" [])) = [] /\
  Client.previousResults (Client.on_message Client.initial (start_frame "plugin-c" [])) = ∅ /\
  Client.stderr (Client.on_message Client.initial (start_frame "plugin-c" [])) =
    [Raised (VStr "boom")].
Proof.
  split; [reflexivity |].
  apply (plugin_error_is_logged_without_reply Client.initial
           (start_frame "plugin-c" []) (package "plugin-c") []
           Client.initial pluginC [] (Raised (VStr "boom")));
    reflexivity.
Defined.

(** A WRITE/start frame, a handshake frame, and a Runnable whose handshake
    is not answered yet: its start is refused, its destroy is sent. *)
Lemma write_is_not_gated_by_handshake_witness :
  let hs := stringify START {| event := "handshake"; params := Some [VStr "r-1"] |} in
  op (start_frame "plugin-b" []) = WRITE /\
  Client.clientId (Client.on_message Client.initial hs) <> Client.clientId Client.initial /\
  reachable fresh /\
  in_flight fresh !! 0%nat = Some {| wait_op := START; caller := OfBootstrap |} /\
  handle fresh = Some {| outbox := [hs] |} /\
  op hs = START /\
  Client.on_message (Client.set_clientId (Some "r-1") Client.initial)
      (start_frame "plugin-b" []) =
    Client.set_clientId (Some "r-1")
      (Client.on_message Client.initial (start_frame "plugin-b" [])) /\
  state fresh = init /\
  start (package "plugin-b") [] fresh = (fresh, Failed (BusyError fresh)) /\
  sent (destroy fresh).1 =
    [hs; stringify WRITE {| event := "destroy"; params := None |}].
Proof.
  intros hs.
  assert (Hc : Client.clientId (Client.on_message Client.initial hs) <>
               Client.clientId Client.initial) by (vm_compute; discriminate).
  assert (Hw : in_flight fresh !! 0%nat =
               Some {| wait_op := START; caller := OfBootstrap |})
    by (vm_compute; reflexivity).
  assert (Hh : handle fresh = Some {| outbox := [hs] |}) by (vm_compute; reflexivity).
  destruct (write_is_not_gated_by_handshake Client.initial
              (start_frame "plugin-b" []) (Some "r-1") Client.initial hs
              fresh 0%nat {| wait_op := START; caller := OfBootstrap |}
              (package "plugin-b") [] fresh {| outbox := [hs] |})
    as (H1 & H2 & H3 & H4).
  destruct (H3 reachable_fresh (or_intror (conj Hw eq_refl))) as (Hs & Hst & _).
  split; [reflexivity |]. split; [exact Hc |]. split; [exact reachable_fresh |].
  split; [exact Hw |]. split; [exact Hh |].
  split; [exact (proj1 (H2 Hc)) |]. split; [exact (H1 eq_refl) |].
  split; [exact Hs |]. split; [exact Hst |].
  rewrite (H4 Hh). vm_compute. reflexivity.
Defined.

(** pluginB returns undefined. *)
Lemma empty_result_resolves_to_null_witness :
  exists s',
    System.round (start (package "plugin-b") []) booted =
      (s', Suspended, [{| call := Start; result := Return (AStart None) |}]) /\
    state (System.parent s') = idle.
Proof.
  destruct (empty_result_resolves_to_null booted (package "plugin-b") []
              (start (package "plugin-b") [] (System.parent booted)).1
              (System.child booted) pluginB [] VUndefined)
    as (s' & Hround & _ & _ & Hidle).
  - vm_compute. reflexivity.
  - vm_compute. reflexivity.
  - vm_compute. reflexivity.
  - reflexivity.
  - reflexivity.
  - exists s'. by split.
Defined.

End Witnesses.

(** * More about the subprocess endpoint *)

Section ClientExtras.
Context `{ClientHost}.
Import Client.

Lemma invoke_frame pkg pluginArgs c c1 o :
  invoke pkg pluginArgs c = (c1, o) ->
  clientId c1 = clientId c /\ previousResults c1 = previousResults c /\
  sent c1 = sent c /\ stderr c1 = stderr c /\ exited c1 = exited c /\
  uuids c1 = uuids c /\ uncaught c1 = uncaught c.
Proof.
  unfold invoke. destruct (prepare pkg pluginArgs c) as [c0 [[f args]|e]] eqn:Hp;
    destruct (prepare_frame _ _ _ _ _ Hp) as (? & ? & ? & ? & ? & ? & ? & ?);
    intros [= <- <-]; by repeat split.
Qed.

(** X2.  Handling one frame makes the endpoint send nothing or exactly one
    frame, and that frame is a pong under the operator of the frame
    handled. *)
Theorem endpoint_replies_at_most_one_pong (c : state) (msg : wire) :
  sent (on_message c msg) = sent c \/
  exists ps,
    sent (on_message c msg) =
      (sent c ++ [stringify (op msg) {| event := "pong"; params := Some ps |}])%list.
Proof.
  unfold on_message, parse. destruct (exited c); [by left |].
  destruct (op msg) eqn:Hop; simpl; try by left.
  - unfold handle_START. destruct (String.eqb _ _); [| by left].
    destruct (index _ _) as [[| |b|n|s|l|ps|m]|e]; try by left.
    right. by exists [VStr s].
  - unfold handle_WRITE. destruct (String.eqb _ "start").
    + destruct (_ ≫= _) as [pkg|e]; [| by left].
      destruct (invoke pkg _ c) as [c1 [resp|err]] eqn:Hi;
        destruct (invoke_frame _ _ _ _ _ Hi) as (_ & _ & Hs & _).
      * destruct (truthy resp); right; eexists; simpl; by rewrite Hs.
      * left. simpl. by rewrite Hs.
    + destruct (String.eqb _ "destroy"); by left.
Qed.

Lemma on_message_keys_are_ids c msg :
  keys_are_ids c -> keys_are_ids (on_message c msg).
Proof.
  intros Hc. unfold on_message, parse. destruct (exited c); [done |].
  destruct (op msg); simpl; try done.
  - unfold handle_START. destruct (String.eqb _ _); [| done].
    destruct (index _ _) as [[]|]; done.
  - unfold handle_WRITE. destruct (String.eqb _ "start").
    + destruct (_ ≫= _) as [pkg|e]; [| done].
      destruct (invoke pkg _ c) as [c1 [resp|err]] eqn:Hi;
        destruct (invoke_frame _ _ _ _ _ Hi) as (_ & Ht & _ & _ & _ & Hu & _).
      * destruct (truthy resp); intros k; unfold keys_are_ids in Hc; simpl;
          rewrite ?Ht, ?Hu; [| apply Hc].
        rewrite lookup_insert_is_Some, Hc. split.
        -- intros [<-|[_ (i & Hi' & ->)]]; [exists (uuids c) | exists i]; split; (lia || done).
        -- intros (i & Hlt & ->). destruct (decide (i = uuids c)) as [->|Hne]; [by left |].
           destruct (decide (uuid_v4 (uuids c) = uuid_v4 i)); [by left |].
           right. split; [done |]. exists i. split; [lia | done].
      * intros k. simpl. rewrite Ht, Hu. apply Hc.
    + by destruct (String.eqb _ "destroy").
Qed.

Lemma reachable_keys_are_ids c : reachable c -> keys_are_ids c.
Proof.
  intros [msgs ->]. unfold run.
  assert (Hi : keys_are_ids initial).
  { intros k. simpl. rewrite lookup_empty. split; [by intros [] |].
    intros (i & Hlt & _). lia. }
  revert Hi. generalize initial. induction msgs as [|m msgs IH]; intros c Hc.
  - done.
  - simpl. apply IH. by apply on_message_keys_are_ids.
Qed.

Lemma reachable_run c msgs : reachable c -> reachable (run c msgs).
Proof.
  intros [pre ->]. exists (pre ++ msgs)%list. unfold run. by rewrite foldl_app.
Qed.

(** X3.  In a process that started with an empty table, the keys of the
    Result Table are exactly the ids [uuid.v4()] has returned so far, and
    every value stored is truthy. *)
Theorem result_table_holds_the_ids_drawn (c : state) (k : string) :
  reachable c ->
  (is_Some (previousResults c !! k) <->
   exists i, (i < uuids c)%nat /\ k = uuid_v4 i) /\
  (forall v, previousResults c !! k = Some v -> truthy v = true).
Proof.
  intros Hr. split; [by apply reachable_keys_are_ids |].
  intros v. by apply reachable_stored_truthy.
Qed.

(** X4.  When [uuid.v4()] never repeats an id, a stored result stays in
    the table, under its id and unchanged, whatever frames are handled
    later: nothing is evicted or overwritten. *)
Theorem stored_results_are_never_evicted
    (c : state) (msgs : list wire) (k : string) (v : value) :
  (forall m n, uuid_v4 m = uuid_v4 n -> m = n) ->
  reachable c ->
  previousResults c !! k = Some v ->
  previousResults (run c msgs) !! k = Some v.
Proof.
  intros Hinj Hr. revert c Hr. unfold run.
  induction msgs as [|m msgs IH]; intros c Hr Hk; [done |].
  simpl. apply IH; [by apply (reachable_run c [m]) |].
  pose proof (reachable_keys_are_ids _ Hr k) as [Hids _].
  destruct (Hids (mk_is_Some _ _ Hk)) as (i & Hlt & ->).
  unfold on_message, parse. destruct (exited c); [done |].
  destruct (op m); simpl; try done.
  - unfold handle_START. destruct (String.eqb _ _); [| done].
    destruct (index _ _) as [[]|]; done.
  - unfold handle_WRITE. destruct (String.eqb _ "start").
    + destruct (_ ≫= _) as [pkg|e]; [| done].
      destruct (invoke pkg _ c) as [c1 [resp|err]] eqn:Hi;
        destruct (invoke_frame _ _ _ _ _ Hi) as (_ & Ht & _ & _ & _ & Hu & _).
      * destruct (truthy resp); simpl; rewrite ?Ht, ?Hu; [| done].
        rewrite lookup_insert_ne; [done |].
        intros Heq. apply Hinj in Heq. lia.
      * simpl. by rewrite Ht.
    + by destruct (String.eqb _ "destroy").
Qed.

End ClientExtras.

(** * More about the Runnable *)

Section RunnableExtras.
Context `{ParentHost}.
Import Runnable.

Lemma reachable_steps r evs : reachable r -> reachable (foldl step r evs).
Proof.
  revert r. induction evs as [|e evs IH]; intros r Hr; [done |].
  simpl. by apply IH, reachable_step.
Qed.

Lemma step_wedged r e : wedged r -> wedged (step r e).
Proof.
  intros (Hb & Hs & Hh). destruct e; simpl.
  - unfold start. by rewrite Hb.
  - unfold valueOf, sendAndWait, send. destruct (handle r); [| done]. simpl.
    split; [done |]. split.
    + intros q wq Hq. simpl in Hq.
      apply lookup_insert_Some in Hq as [[_ <-]|[_ Hq]]; [done | by eapply Hs].
    + intros q wq Hq. simpl in Hq.
      apply lookup_insert_Some in Hq as [[_ <-]|[_ Hq]]; [done | by eapply Hh].
  - unfold destroy, send. by destruct (handle r).
  - unfold handleMessage. destruct (onread r) as [p|]; [| done].
    destruct (waiting r !! p) as [w|] eqn:Hw; [| done].
    assert (Hc : caller w = OfValueOf).
    { destruct (caller w) eqn:Hc; [| | done].
      - by destruct (Hh _ _ Hw). - by destruct (Hs _ _ Hw). }
    unfold resume. rewrite Hc. destruct (decide _).
    + unfold continue. destruct (sendAndWait_return _); simpl;
        (split; [done |]; split; intros q wq Hq; simpl in Hq;
         apply lookup_delete_Some in Hq as [_ Hq]; [by eapply Hs | by eapply Hh]).
    + simpl. split; [done |].
      split; intros q wq Hq; simpl in Hq;
        (apply lookup_insert_Some in Hq as [[_ <-]|[_ Hq]];
         [by simpl |]); apply lookup_delete_Some in Hq as [_ Hq];
        [by eapply Hs | by eapply Hh].
  - unfold afterDestroy. simpl. destruct (ondestroyed r); [| done].
    by destruct (decide _).
Qed.

Lemma steps_wedged r evs : wedged r -> wedged (foldl step r evs).
Proof.
  revert r. induction evs as [|e evs IH]; intros r Hw; [done |].
  simpl. by apply IH, step_wedged.
Qed.

Lemma wedged_refuses r pkg args :
  wedged r -> start pkg args r = (r, Failed (BusyError r)).
Proof. intros (Hb & _). unfold start. by rewrite Hb. Qed.

(** X6.  On a Runnable bootstrapped once, a [start()] that passes the idle
    guard and then fails, whatever the error, has sent no frame and leaves
    the state busy for good: whatever of [start()], [valueOf()] and
    [destroy()] is called and whatever frames or exit notification arrive
    afterwards, the state is busy and [start()] is refused. *)
Theorem failed_start_leaves_the_runnable_busy
    (r r' : PluginRunnable) (pkg : value) (args : list value) (e : Error)
    (evs : list Event) (pkg' : value) (args' : list value) :
  reachable r ->
  state r = idle ->
  start pkg args r = (r', Failed e) ->
  sent r' = sent r /\
  state (foldl step r' evs) = busy /\
  start pkg' args' (foldl step r' evs) =
    (foldl step r' evs, Failed (BusyError (foldl step r' evs))).
Proof.
  intros Hr Hs Hst. pose proof (reachable_Inv _ Hr) as Hi.
  assert (Hb : state r' = busy /\ sent r' = sent r /\ waiting r' = waiting r).
  { unfold start in Hst. rewrite Hs in Hst.
    destruct (package_name pkg) as [name|]; [| by inversion Hst].
    simpl in Hst. destruct (ensureSymlink _ _ _) as [fs3|]; [| by inversion Hst].
    destruct (sendAndWait _ _ _ _) as [r2|]; by inversion Hst. }
  destruct Hb as (Hb & Hsent & Hw).
  assert (Hwd : wedged r').
  { split; [done |]. unfold no_waiter. rewrite Hw. split.
    - by apply (no_waiter_by_state OfStart idle).
    - by apply (no_waiter_by_state OfBootstrap idle). }
  pose proof (steps_wedged r' evs Hwd) as Hwd'.
  split; [done |]. split; [by destruct Hwd' |]. by apply wedged_refuses.
Qed.

(** X7.  On a Runnable bootstrapped once, when the response to a
    [start()] is not a pong the call rejects with the protocol error and
    the state stays busy for good: whatever of [start()], [valueOf()] and
    [destroy()] is called and whatever frames or exit notification arrive
    afterwards, the state is busy and [start()] is refused. *)
Theorem rejected_start_leaves_the_runnable_busy
    (r : PluginRunnable) (f : wire) (evs : list Event)
    (pkg : value) (args : list value) :
  reachable r ->
  waits_for WRITE OfStart r ->
  op f = WRITE ->
  event (message f) <> "pong" ->
  exists r',
    handleMessage r f = (r', Some {| call := Start; result := Throw ProtocolError |}) /\
    state (foldl step r' evs) = busy /\
    start pkg args (foldl step r' evs) =
      (foldl step r' evs, Failed (BusyError (foldl step r' evs))).
Proof.
  intros Hr (p & Hon & Hw) Hop Hev. pose proof (reachable_Inv _ Hr) as Hi.
  pose proof (inv_start _ Hi _ _ Hw eq_refl) as Hb.
  unfold handleMessage, parse. rewrite Hon, Hw. unfold resume. simpl.
  destruct (decide (op f = WRITE)); [| done].
  unfold sendAndWait_return. apply String.eqb_neq in Hev. rewrite Hev. simpl.
  eexists. split; [done |].
  assert (Hwd : wedged (set_waiting (delete p (waiting r)) r)).
  { split; [done |]. split.
    - by apply (no_waiter_delete OfStart p _ r Hi Hw).
    - intros q wq Hq. simpl in Hq. apply lookup_delete_Some in Hq as [_ Hq].
      by apply (no_waiter_by_state OfBootstrap busy r Hi Hb) in Hq. }
  pose proof (steps_wedged _ evs Hwd) as Hwd'.
  split; [by destruct Hwd' | by apply wedged_refuses].
Qed.

Lemma step_keeps_displaced r e p w :
  Inv r -> waiting r !! p = Some w -> onread r <> Some p ->
  waiting (step r e) !! p = Some w /\ onread (step r e) <> Some p.
Proof.
  intros Hi Hp Hon. pose proof (inv_fresh _ Hi _ _ Hp) as Hlt.
  assert (Hsw : forall o msg k r0 r1,
            waiting r0 = waiting r -> onread r0 = onread r ->
            promises r0 = promises r ->
            sendAndWait o msg k r0 = Return r1 ->
            waiting r1 !! p = Some w /\ onread r1 <> Some p).
  { intros o msg k r0 r1 Hw0 Ho0 Hp0. unfold sendAndWait, send.
    destruct (handle r0); [| done]. simpl. intros [= <-]. simpl.
    rewrite Hw0, Hp0. split; [| intros [= Heq]; lia].
    rewrite lookup_insert_ne by lia. done. }
  destruct e; simpl.
  - unfold start. destruct (state r); try done.
    destruct (package_name pkg); [| done]. simpl.
    destruct (ensureSymlink _ _ _); [| done].
    destruct (sendAndWait _ _ _ _) as [r1|] eqn:Hs; [| done].
    simpl. by eapply Hsw; [| | | exact Hs].
  - unfold valueOf. destruct (sendAndWait _ _ _ r) as [r1|] eqn:Hs; [| done].
    simpl. by eapply Hsw; [| | | exact Hs].
  - unfold destroy, send. destruct (handle r); simpl; by split.
  - unfold handleMessage. destruct (onread r) as [q|] eqn:Hq;
      [| simpl; rewrite Hq; by split].
    assert (Hne : q <> p) by congruence.
    destruct (waiting r !! q) as [wq|] eqn:Hwq;
      [| simpl; rewrite Hq; split; [done | congruence]].
    unfold resume. destruct (decide _).
    + unfold continue. destruct (sendAndWait_return _).
      * destruct (caller wq); simpl; rewrite Hq, lookup_delete_ne by done;
          (split; [done | congruence]).
      * simpl. rewrite Hq, lookup_delete_ne by done. split; [done | congruence].
    + simpl. rewrite lookup_insert_ne by lia. rewrite lookup_delete_ne by done.
      split; [done |]. intros [= Heq]. lia.
  - unfold afterDestroy. simpl. destruct (ondestroyed r); [| by split].
    destruct (decide _); by split.
Qed.

(** X9.  On a Runnable bootstrapped once, a pending read that [onread] no
    longer holds is never resolved: whatever of [start()], [valueOf()] and
    [destroy()] is called and whatever frames or exit notification arrive
    afterwards, the call suspended on it stays suspended; if that call is
    a [start()], the state stays busy. *)
Theorem displaced_read_is_never_resolved
    (r : PluginRunnable) (p : nat) (w : Waiter) (evs : list Event) :
  reachable r ->
  waiting r !! p = Some w ->
  onread r <> Some p ->
  waiting (foldl step r evs) !! p = Some w /\
  (caller w = OfStart -> state (foldl step r evs) = busy).
Proof.
  intros Hr Hp Hon.
  assert (Hw : waiting (foldl step r evs) !! p = Some w).
  { revert r Hr Hp Hon. induction evs as [|e evs IH]; intros r Hr Hp Hon; [done |].
    simpl. destruct (step_keeps_displaced r e p w (reachable_Inv _ Hr) Hp Hon).
    apply IH; [by apply reachable_step | done | done]. }
  split; [done |]. intros Hc.
  by apply (inv_start _ (reachable_Inv _ (reachable_steps r evs Hr)) p w).
Qed.

(** X10.  An idle Runnable has no [start()] and no handshake in flight:
    the only requests that can be pending in state idle are those of
    [valueOf()]. *)
Theorem idle_runnable_has_only_reads_in_flight
    (r : PluginRunnable) (p : nat) (w : Waiter) :
  reachable r ->
  state r = idle ->
  in_flight r !! p = Some w ->
  caller w = OfValueOf.
Proof.
  intros Hr Hs Hp. pose proof (reachable_Inv _ Hr) as Hi.
  destruct (caller w) eqn:Hc; [| | done].
  - pose proof (inv_boot _ Hi _ _ Hp Hc). congruence.
  - pose proof (inv_start _ Hi _ _ Hp Hc). congruence.
Qed.

(** X11.  Before [bootstrap()] nothing can be done with a Runnable:
    [start()] is refused as busy, [valueOf()] and [destroy()] fail on the
    null handle, an inbound frame is discarded, and the Runnable is left
    as it was. *)
Theorem calls_before_bootstrap_change_nothing
    (r : PluginRunnable) (pkg : value) (args : list value)
    (resp : RunnableResponse) (msg : wire) :
  reachable r ->
  handle r = None ->
  start pkg args r = (r, Failed (BusyError r)) /\
  valueOf resp r = (r, Failed (TypeError "Cannot read property 'send' of null")) /\
  destroy r = (r, Failed (TypeError "Cannot read property 'send' of null")) /\
  handleMessage r msg = (r, None).
Proof.
  intros Hr Hh. destruct (inv_unspawned _ (reachable_Inv _ Hr) Hh) as [Hw Hs].
  split; [unfold start; by rewrite Hs |].
  split; [unfold valueOf, sendAndWait, send; by rewrite Hh |].
  split; [unfold destroy, send; by rewrite Hh |].
  unfold handleMessage. destruct (onread r); [| done].
  by rewrite Hw, lookup_empty.
Qed.

(** X12.  The response to a [valueOf()]: a READ pong with exactly one
    param resolves the call to [JSON.parse] of that param, or rejects it
    with what [JSON.parse] throws; a READ pong whose params are absent or
    not exactly one rejects it with the params error.  Either way the
    state of the Runnable is what it was. *)
Theorem valueOf_checks_the_params
    (r : PluginRunnable) (p : nat) (f g : wire) (x : value) :
  onread r = Some p ->
  waiting r !! p = Some {| wait_op := READ; caller := OfValueOf |} ->
  (op f = READ -> event (message f) = "pong" ->
   params (message f) = Some [x] ->
   handleMessage r f =
     (set_waiting (delete p (waiting r)) r,
      Some {| call := ValueOf;
              result := match JSON_parse x with
                        | Return v => Return (AValue v)
                        | Throw e => Throw e
                        end |})) /\
  (op g = READ -> event (message g) = "pong" ->
   (forall y, params (message g) <> Some [y]) ->
   handleMessage r g =
     (set_waiting (delete p (waiting r)) r,
      Some {| call := ValueOf;
              result := Throw (TypeError
                "invalid response because the params is invalid.") |})).
Proof.
  intros Hon Hw. split.
  - intros Hop Hev Hps. unfold handleMessage, parse. rewrite Hon, Hw.
    unfold resume. simpl. destruct (decide (op f = READ)); [| done].
    unfold sendAndWait_return. rewrite Hev. simpl. rewrite Hps.
    by destruct (JSON_parse x).
  - intros Hop Hev Hps. unfold handleMessage, parse. rewrite Hon, Hw.
    unfold resume. simpl. destruct (decide (op g = READ)); [| done].
    unfold sendAndWait_return. rewrite Hev. simpl.
    destruct (params (message g)) as [[|y [|z l]]|]; try done.
    by destruct (Hps y).
Qed.

(** X13.  A second [destroy()] takes [ondestroyed] over: the exit
    notification resolves the promise of the second call only, the promise
    of the first call stays pending, and a further notification resolves
    nothing. *)
Theorem second_destroy_orphans_the_first (r r1 r2 : PluginRunnable) :
  destroy r = (r1, Suspended) ->
  destroy r1 = (r2, Suspended) ->
  exists r3,
    afterDestroy r2 =
      (r3, Some {| call := Destroy; result := Return ADestroy |}) /\
    (promises r ∈ destroying r3) /\
    (promises r1 ∉ destroying r3) /\
    (afterDestroy r3).2 = None.
Proof.
  unfold destroy, send. destruct (handle r) as [h|]; [| done]. simpl.
  intros [= <-]. simpl. intros [= <-].
  unfold afterDestroy. simpl.
  destruct (decide _) as [_|Hn];
    [| destruct Hn; by apply elem_of_union_r, elem_of_singleton].
  eexists. split; [done |]. simpl.
  split; [| split].
  - apply elem_of_difference. split.
    + by apply elem_of_union_l, elem_of_union_r, elem_of_singleton.
    + rewrite elem_of_singleton. lia.
  - rewrite elem_of_difference, elem_of_singleton. by intros [_ []].
  - destruct (decide _) as [Hin|]; [| done].
    apply elem_of_difference in Hin as [_ Hin].
    by destruct Hin; apply elem_of_singleton.
Qed.

(** X14.  When the child exits without [destroy()] having been called, the
    exit handler removes the working directory and settles nothing: the
    calls in flight stay suspended and the state is what it was. *)
Theorem exit_without_destroy_settles_nothing (r : PluginRunnable) :
  reachable r ->
  ondestroyed r = None ->
  exists r',
    afterDestroy r = (r', None) /\
    (workingDir r' ∉ fs r') /\
    in_flight r' = in_flight r /\ onread r' = onread r /\ state r' = state r.
Proof.
  intros Hr Hd. unfold afterDestroy. simpl. rewrite Hd.
  eexists. split; [done |]. simpl.
  rewrite <- (inv_workingDir _ (reachable_Inv _ Hr)).
  split; [apply remove_self | done].
Qed.

Lemma destroy_sent r r1 :
  destroy r = (r1, Suspended) ->
  sent r1 = (sent r ++ [stringify WRITE {| event := "destroy"; params := None |}])%list /\
  ondestroyed r1 = Some (promises r) /\
  (promises r ∈ destroying r1) /\
  (Inv r -> Inv r1).
Proof.
  unfold destroy, send, sent. destruct (handle r) as [h|]; [| done].
  simpl. intros [= <-]. simpl. split; [done |]. split; [done |].
  split; [by apply elem_of_union_r, elem_of_singleton |].
  intros [Hf ? ? ? ? ? ?]. split; simpl; try done.
  intros p w Hp. apply Hf in Hp. lia.
Qed.

Lemma step_identity r e :
  id (step r e) = id r /\ rt (step r e) = rt r /\
  workingDir (step r e) = workingDir r.
Proof.
  destruct e; simpl.
  - unfold start. destruct (state r); try done.
    destruct (package_name pkg); [| done]. simpl.
    destruct (ensureSymlink _ _ _); [| done].
    unfold sendAndWait, send. simpl. by destruct (handle r).
  - unfold valueOf, sendAndWait, send. by destruct (handle r).
  - unfold destroy, send. by destruct (handle r).
  - by destruct (handleMessage_fields r msg) as (? & ? & _ & _ & ? & _).
  - unfold afterDestroy. simpl. destruct (ondestroyed r); [| done].
    by destruct (decide _).
Qed.

Lemma steps_identity r evs :
  id (foldl step r evs) = id r /\ rt (foldl step r evs) = rt r /\
  workingDir (foldl step r evs) = workingDir r.
Proof.
  revert r. induction evs as [|e evs IH]; intros r; [done |].
  simpl. destruct (IH (step r e)) as (-> & -> & ->). apply step_identity.
Qed.

End RunnableExtras.

(** * More about the two processes together *)

Section SystemExtras.
Context `{ClientHost} `{ParentHost}.
Import Runnable.

(** X1.  [bootstrap()] against a fresh child completes: the child records
    the Runnable's id as its client id and echoes it in a START pong, the
    handshake settles, nothing is left in flight and the Runnable is
    idle. *)
Theorem spawn_completes_the_handshake
    (rt0 : CostaRuntime) (id0 : string) (fs0 : gset string) :
  exists s,
    System.spawn rt0 id0 fs0 =
      (s, Suspended, [{| call := Bootstrap; result := Return ABootstrap |}]) /\
    state (System.parent s) = idle /\
    in_flight (System.parent s) = ∅ /\
    sent (System.parent s) =
      [stringify START {| event := "handshake"; params := Some [VStr id0] |}] /\
    Client.clientId (System.child s) = Some id0 /\
    Client.sent (System.child s) =
      [stringify START {| event := "pong"; params := Some [VStr id0] |}].
Proof.
  eexists. split; [reflexivity |]. simpl.
  split; [done |]. split; [| done].
  unfold in_flight. simpl. by rewrite delete_insert_eq, delete_empty.
Qed.

Lemma start_suspended_busy pkg args r r1 :
  start pkg args r = (r1, Suspended) -> state r1 = busy.
Proof.
  unfold start. destruct (state r); try done.
  destruct (package_name pkg) as [name|]; [| done]. simpl.
  destruct (ensureSymlink _ _ _) as [fs3|]; [| done].
  unfold sendAndWait, send. simpl. destruct (handle r); [| done].
  by intros [= <-].
Qed.

Lemma package_name_get pkg name :
  package_name pkg = Return name -> get pkg "name" = Return (VStr name).
Proof.
  unfold package_name. destruct (get pkg "name") as [[| |b|n|s|l|ps|m]|e]; try done.
  by intros [= <-].
Qed.

(** X5.  A reference given by [start()] stands for the result inside the
    endpoint: when the plugin returns a truthy value, [start()] resolves
    to a reference, and that reference, passed as an argument of a later
    request, is resolved to the value the plugin returned. *)
Theorem reference_resolves_to_the_stored_result
    (s : System.t) (pkg : value) (args : list value) (r1 : PluginRunnable)
    (c1 : Client.state) (f : Plugin) (args' : list value) (v : value) :
  start pkg args (System.parent s) = (r1, Suspended) ->
  Client.exited (System.child s) = None ->
  Client.prepare pkg args (System.child s) = (c1, Return (f, args')) ->
  f args' = Return v ->
  truthy v = true ->
  uuid_v4 (Client.uuids (System.child s)) <> "" ->
  exists s' ref,
    System.round (start pkg args) s =
      (s', Suspended, [{| call := Start; result := Return (AStart (Some ref)) |}]) /\
    Client.deserializeArg (Client.previousResults (System.child s'))
      (RunnableResponse_value ref) = Return v.
Proof.
  intros Hst Hex Hp Hf Hv Hid.
  destruct (nonempty_result_resolves_to_reference s pkg args r1 c1 f args' v
              Hst Hex Hp Hf Hv Hid) as (s' & Hround & Hlook & _).
  eexists s', _. split; [exact Hround |].
  unfold Client.deserializeArg, Client.lookup_result. simpl.
  rewrite Hlook. simpl. by rewrite Hv.
Qed.

(** X8.  Whatever is thrown inside the [try] of the WRITE/start handler,
    by the plugin, by its loading or by the resolution of an argument, is
    printed and not answered: the [start()] that sent the request stays
    suspended and the Runnable stays busy. *)
Theorem endpoint_error_leaves_start_suspended
    (s : System.t) (pkg : value) (args : list value) (r1 : PluginRunnable)
    (c1 : Client.state) (err : Error) :
  start pkg args (System.parent s) = (r1, Suspended) ->
  Client.exited (System.child s) = None ->
  Client.invoke pkg args (System.child s) = (c1, Throw err) ->
  exists s',
    System.round (start pkg args) s = (s', Suspended, []) /\
    System.parent s' = r1 /\
    state r1 = busy /\ waits_for WRITE OfStart r1 /\
    Client.sent (System.child s') = Client.sent (System.child s) /\
    Client.stderr (System.child s') =
      (Client.stderr (System.child s) ++ [err])%list.
Proof.
  intros Hst Hex Hi.
  destruct (start_suspended _ _ _ _ Hst) as (name & Hname & Hw & Hsent).
  pose proof (start_suspended_busy _ _ _ _ Hst) as Hb.
  destruct (invoke_frame _ _ _ _ _ Hi) as (_ & _ & Hs & He & Hx & _).
  unfold System.round. rewrite Hst, Hsent, drop_app_length.
  unfold System.serve, Client.run. simpl.
  unfold Client.on_message, parse. rewrite Hex. simpl.
  unfold Client.handle_WRITE. simpl.
  rewrite (package_name_get _ _ Hname). simpl. rewrite Hi. simpl.
  rewrite Hs, drop_all, Hx, Hex. simpl.
  eexists. split; [reflexivity |]. simpl. by rewrite Hs, He.
Qed.





End SystemExtras.

(** * The life of a Runnable, end to end *)

Section LifecycleExtras.
Context `{ClientHost} `{ParentHost}.
Import Runnable.

(** X16.  [destroy()] against a live child: the child exits with code 0
    and sends nothing, the exit notification follows, the promise of
    [destroy()] resolves, and the working directory is gone. *)
Theorem destroy_ends_the_child_and_resolves
    (s : System.t) (r1 : PluginRunnable) :
  reachable (System.parent s) ->
  destroy (System.parent s) = (r1, Suspended) ->
  Client.exited (System.child s) = None ->
  exists s',
    System.round destroy s =
      (s', Suspended, [{| call := Destroy; result := Return ADestroy |}]) /\
    Client.exited (System.child s') = Some 0 /\
    Client.sent (System.child s') = Client.sent (System.child s) /\
    (workingDir (System.parent s') ∉ fs (System.parent s')).
Proof.
  intros Hr Hd Hex.
  destruct (destroy_sent _ _ Hd) as (Hsent & Hod & Hin & Hi).
  unfold System.round. rewrite Hd, Hsent, drop_app_length.
  unfold System.serve, Client.run. simpl.
  unfold Client.on_message, parse. rewrite Hex. simpl.
  rewrite drop_all. simpl.
  unfold afterDestroy. simpl. rewrite Hod. simpl.
  destruct (decide _) as [_|Hn]; [| by destruct Hn].
  eexists. split; [reflexivity |]. simpl.
  split; [done |]. split; [done |].
  rewrite <- (inv_workingDir _ (Hi (reachable_Inv _ Hr))). apply remove_self.
Qed.

(** X17.  The working directory of a Runnable is fixed at construction:
    whatever is called and whatever arrives, it stays the directory named
    by the Runnable's id under the component directory, which is the one
    the exit handler removes. *)
Theorem working_directory_is_fixed (r : PluginRunnable) (evs : list Event) :
  reachable r ->
  workingDir (foldl step r evs) = workingDir r /\
  workingDir r = path_join (componentDir (options (rt r))) (id r) /\
  (workingDir r ∉ fs (afterDestroy (foldl step r evs)).1).
Proof.
  intros Hr.
  pose proof (reachable_Inv _ Hr) as Hi.
  pose proof (reachable_Inv _ (reachable_steps r evs Hr)) as Hi'.
  destruct (steps_identity r evs) as (Hid & Hrt & Hwd).
  split; [done |]. split; [by apply inv_workingDir |].
  rewrite (inv_workingDir _ Hi), <- Hid, <- Hrt.
  unfold afterDestroy. simpl.
  destruct (ondestroyed _); [destruct (decide _) |]; simpl; apply remove_self.
Qed.

End LifecycleExtras.

(** * The hypotheses of the further theorems hold on the demonstration host *)

Section MoreWitnesses.
Import Runnable Demo.

Lemma demo_uuid_inj m n : uuid_v4 m = uuid_v4 n -> m = n.
Proof.
  simpl. intros Heq. injection Heq as Heq. by apply (inj pretty).
Qed.

Lemma reachable_reading : reachable reading.
Proof. apply reachable_step, reachable_ready. Qed.

(** One result stored: its id is the first id drawn. *)
Lemma result_table_holds_the_ids_drawn_witness :
  let c := Client.run Client.initial [start_frame "plugin-a" []] in
  Client.reachable c /\
  (is_Some (Client.previousResults c !! "uuid-0") <->
   exists i, (i < Client.uuids c)%nat /\ "uuid-0" = uuid_v4 i).
Proof.
  intros c.
  assert (Hr : Client.reachable c) by (by exists [start_frame "plugin-a" []]).
  split; [exact Hr |].
  exact (proj1 (result_table_holds_the_ids_drawn c "uuid-0" Hr)).
Defined.

(** The result of pluginA outlives two more requests. *)
Lemma stored_results_are_never_evicted_witness :
  let c := Client.run Client.initial [start_frame "plugin-a" []] in
  let msgs := [start_frame "plugin-a" []; start_frame "plugin-b" []] in
  Client.reachable c /\
  Client.previousResults c !! "uuid-0" = Some (VObj [("y", VNum 2)]) /\
  Client.previousResults (Client.run c msgs) !! "uuid-0" = Some (VObj [("y", VNum 2)]).
Proof.
  intros c msgs.
  assert (Hr : Client.reachable c) by (by exists [start_frame "plugin-a" []]).
  assert (Hk : Client.previousResults c !! "uuid-0" = Some (VObj [("y", VNum 2)]))
    by (vm_compute; reflexivity).
  split; [exact Hr |]. split; [exact Hk |].
  exact (stored_results_are_never_evicted c msgs "uuid-0" _ demo_uuid_inj Hr Hk).
Defined.

(** pluginA returns [{y: 2}]; the reference resolves to it. *)
Lemma reference_resolves_to_the_stored_result_witness :
  exists s' ref,
    System.round (start (package "plugin-a") []) booted =
      (s', Suspended, [{| call := Start; result := Return (AStart (Some ref)) |}]) /\
    Client.deserializeArg (Client.previousResults (System.child s'))
      (RunnableResponse_value ref) = Return (VObj [("y", VNum 2)]).
Proof.
  apply (reference_resolves_to_the_stored_result booted (package "plugin-a") []
           (start (package "plugin-a") [] (System.parent booted)).1
           (System.child booted) pluginA [] (VObj [("y", VNum 2)])).
  - vm_compute. reflexivity.
  - vm_compute. reflexivity.
  - vm_compute. reflexivity.
  - reflexivity.
  - reflexivity.
  - vm_compute. discriminate.
Defined.

(** A plugin that is not installed: the symlink cannot be made; a valueOf,
    its pong, a stray WRITE pong and a destroy later, the Runnable is
    still busy. *)
Lemma failed_start_leaves_the_runnable_busy_witness :
  let r' := (start (package "plugin-x") [] ready).1 in
  let evs := [EValueOf (reference "uuid-0"); EMessage (pong READ [VStr "null"]);
              EMessage (pong WRITE []); EDestroy] in
  reachable ready /\
  state ready = idle /\
  start (package "plugin-x") [] ready =
    (r', Failed (FsError "/install/node_modules/plugin-x")) /\
  state (foldl step r' evs) = busy /\
  start (package "plugin-a") [] (foldl step r' evs) =
    (foldl step r' evs, Failed (BusyError (foldl step r' evs))).
Proof.
  intros r' evs.
  assert (Hs : state ready = idle) by (vm_compute; reflexivity).
  assert (Hst : start (package "plugin-x") [] ready =
                  (r', Failed (FsError "/install/node_modules/plugin-x")))
    by (vm_compute; reflexivity).
  destruct (failed_start_leaves_the_runnable_busy ready r' (package "plugin-x") []
              (FsError "/install/node_modules/plugin-x") evs (package "plugin-a") []
              reachable_ready Hs Hst) as (_ & Hb & Hre).
  split; [exact reachable_ready |]. split; [exact Hs |]. split; [exact Hst |].
  split; [exact Hb | exact Hre].
Defined.

(** A WRITE frame that is not a pong answers the start in flight; a late
    WRITE pong does not bring the Runnable back. *)
Lemma rejected_start_leaves_the_runnable_busy_witness :
  let evs := [EMessage (pong WRITE []); EStart (package "plugin-b") []] in
  waits_for WRITE OfStart started /\
  exists r',
    handleMessage started (failure WRITE) =
      (r', Some {| call := Start; result := Throw ProtocolError |}) /\
    state (foldl step r' evs) = busy.
Proof.
  intros evs.
  assert (Hw : waits_for WRITE OfStart started).
  { exists 1%nat. split; vm_compute; reflexivity. }
  split; [exact Hw |].
  destruct (rejected_start_leaves_the_runnable_busy started (failure WRITE) evs
              (package "plugin-a") [] reachable_started Hw eq_refl)
    as (r' & Hh & Hb & _).
  - vm_compute. discriminate.
  - exists r'. by split.
Defined.

(** pluginC throws: the start stays suspended. *)
Lemma endpoint_error_leaves_start_suspended_witness :
  exists s',
    System.round (start (package "plugin-c") []) booted = (s', Suspended, []) /\
    Client.stderr (System.child s') = [Raised (VStr "boom")].
Proof.
  destruct (endpoint_error_leaves_start_suspended booted (package "plugin-c") []
              (start (package "plugin-c") [] (System.parent booted)).1
              (Client.invoke (package "plugin-c") [] (System.child booted)).1
              (Raised (VStr "boom")))
    as (s' & Hround & _ & _ & _ & _ & Herr).
  - vm_compute. reflexivity.
  - vm_compute. reflexivity.
  - vm_compute. reflexivity.
  - exists s'. split; [exact Hround | exact Herr].
Defined.

(** The start displaced by a valueOf: pongs of both operators and a
    further call leave it suspended. *)
Lemma displaced_read_is_never_resolved_witness :
  let evs := [EMessage (pong WRITE []); EMessage (pong READ [VStr "null"]);
              EStart (package "plugin-b") []] in
  waiting overlapping !! 1%nat = Some {| wait_op := WRITE; caller := OfStart |} /\
  onread overlapping <> Some 1%nat /\
  waiting (foldl step overlapping evs) !! 1%nat =
    Some {| wait_op := WRITE; caller := OfStart |} /\
  state (foldl step overlapping evs) = busy.
Proof.
  intros evs.
  assert (Hw : waiting overlapping !! 1%nat =
               Some {| wait_op := WRITE; caller := OfStart |})
    by (vm_compute; reflexivity).
  assert (Hon : onread overlapping <> Some 1%nat) by (vm_compute; discriminate).
  destruct (displaced_read_is_never_resolved overlapping 1%nat
              {| wait_op := WRITE; caller := OfStart |} evs
              reachable_overlapping Hw Hon) as [H1 H2].
  split; [exact Hw |]. split; [exact Hon |]. split; [exact H1 | exact (H2 eq_refl)].
Defined.

(** An idle Runnable with a valueOf in flight. *)
Lemma idle_runnable_has_only_reads_in_flight_witness :
  state reading = idle /\
  in_flight reading !! 1%nat = Some {| wait_op := READ; caller := OfValueOf |} /\
  caller {| wait_op := READ; caller := OfValueOf |} = OfValueOf.
Proof.
  assert (Hs : state reading = idle) by (vm_compute; reflexivity).
  assert (Hp : in_flight reading !! 1%nat =
               Some {| wait_op := READ; caller := OfValueOf |})
    by (vm_compute; reflexivity).
  split; [exact Hs |]. split; [exact Hp |].
  exact (idle_runnable_has_only_reads_in_flight reading 1%nat _
           reachable_reading Hs Hp).
Defined.

(** A Runnable just constructed. *)
Lemma calls_before_bootstrap_change_nothing_witness :
  handle (new rt0 "r-1" disk) = None /\
  destroy (new rt0 "r-1" disk) =
    (new rt0 "r-1" disk, Failed (TypeError "Cannot read property 'send' of null")).
Proof.
  split; [reflexivity |].
  exact (proj1 (proj2 (proj2 (calls_before_bootstrap_change_nothing
           (new rt0 "r-1" disk) (package "plugin-a") [] (reference "uuid-0")
           (pong WRITE []) (reachable_new rt0 "r-1" disk) eq_refl)))).
Defined.

(** A READ pong with one param, and one with none. *)
Lemma valueOf_checks_the_params_witness :
  onread reading = Some 1%nat /\
  (handleMessage reading (pong READ [VStr "null"])).2 =
    Some {| call := ValueOf; result := Return (AValue VNull) |} /\
  (handleMessage reading (pong READ [])).2 =
    Some {| call := ValueOf;
            result := Throw (TypeError
              "invalid response because the params is invalid.") |}.
Proof.
  assert (Hon : onread reading = Some 1%nat) by (vm_compute; reflexivity).
  assert (Hw : waiting reading !! 1%nat =
               Some {| wait_op := READ; caller := OfValueOf |})
    by (vm_compute; reflexivity).
  destruct (valueOf_checks_the_params reading 1%nat (pong READ [VStr "null"])
              (pong READ []) (VStr "null") Hon Hw) as [H1 H2].
  split; [exact Hon |]. split.
  - rewrite (H1 eq_refl eq_refl eq_refl). reflexivity.
  - rewrite (H2 eq_refl eq_refl); [reflexivity | discriminate].
Defined.

(** Two destroys on a bootstrapped Runnable. *)
Lemma second_destroy_orphans_the_first_witness :
  let r1 := (destroy ready).1 in
  let r2 := (destroy r1).1 in
  destroy ready = (r1, Suspended) /\ destroy r1 = (r2, Suspended) /\
  exists r3,
    afterDestroy r2 = (r3, Some {| call := Destroy; result := Return ADestroy |}) /\
    promises ready ∈ destroying r3.
Proof.
  intros r1 r2.
  assert (H1 : destroy ready = (r1, Suspended)) by (vm_compute; reflexivity).
  assert (H2 : destroy r1 = (r2, Suspended)) by (vm_compute; reflexivity).
  destruct (second_destroy_orphans_the_first ready r1 r2 H1 H2)
    as (r3 & Ha & Hin & _).
  split; [exact H1 |]. split; [exact H2 |]. exists r3. by split.
Defined.

(** The child exits while a start is in flight. *)
Lemma exit_without_destroy_settles_nothing_witness :
  ondestroyed started = None /\
  exists r',
    afterDestroy started = (r', None) /\ state r' = busy.
Proof.
  assert (Hd : ondestroyed started = None) by (vm_compute; reflexivity).
  destruct (exit_without_destroy_settles_nothing started reachable_started Hd)
    as (r' & Ha & _ & _ & _ & Hs).
  split; [exact Hd |]. exists r'. split; [exact Ha |].
  rewrite Hs. vm_compute. reflexivity.
Defined.


Lemma reachable_booted : reachable (System.parent booted).
Proof.
  replace (System.parent booted) with ready by (vm_compute; reflexivity).
  apply reachable_ready.
Qed.

(** A bootstrapped pair destroyed. *)
Lemma destroy_ends_the_child_and_resolves_witness :
  exists s',
    System.round destroy booted =
      (s', Suspended, [{| call := Destroy; result := Return ADestroy |}]) /\
    Client.exited (System.child s') = Some 0.
Proof.
  destruct (destroy_ends_the_child_and_resolves booted
              (destroy (System.parent booted)).1 reachable_booted)
    as (s' & Hround & Hex & _).
  - vm_compute. reflexivity.
  - vm_compute. reflexivity.
  - exists s'. split; [exact Hround | exact Hex].
Defined.

(** A start, a valueOf and a stray pong do not move the directory. *)
Lemma working_directory_is_fixed_witness :
  let evs := [EStart (package "plugin-a") []; EValueOf (reference "uuid-0");
              EMessage (pong WRITE [])] in
  reachable ready /\
  workingDir (foldl step ready evs) = "/components/r-1".
Proof.
  intros evs. split; [exact reachable_ready |].
  rewrite (proj1 (working_directory_is_fixed ready evs reachable_ready)).
  reflexivity.
Defined.

End MoreWitnesses.
